(** * The query engine of [exercise-13/database.ts] and [exercise-14/database.ts]

    A shallow embedding of the [Database] class: the three filter
    evaluators, the comparator [sort], the projector [project] and the
    query executor [find], over a model of the JavaScript values the code
    handles.  The two source files share the filter evaluators verbatim;
    exercise 14 adds [sort], [project] and the [options] argument of
    [find].

    Conventions of the embedding.
    - A JavaScript string is a [string] whose characters are read as
      UTF-16 code units in the range 0..255.
    - A JavaScript number is a binary64 float, a [spec_float] in the
      normal form that [JSON.parse] and number literals produce; the
      literals [1 | -1] of a sort direction are integers of [Z].
    - An object or array carries the address it was allocated at; [===]
      on objects compares addresses.
    - An exception is the result [None]; a rejected promise is [None].
    - An object literal is the list of its own enumerable properties in
      the order [Object.keys] and [for .. in] enumerate them.
    - An optional property [p?: X] is either absent or holds an [X]; the
      value of a key of a ConditionalFilter is a condition object, and no
      key of a filter is [hasOwnProperty].
    - What the code obtains from the JavaScript host and not from its own
      text (the file system, [JSON.parse], [Array.prototype.sort], number
      parsing, inherited properties, regular expressions beyond the
      fragment interpreted below) is a member of the class [Host]. *)

From Stdlib Require Import String Ascii List ZArith NArith Bool Lia.
From Stdlib Require Import SpecFloat Permutation.
Import ListNotations.
Local Open Scope string_scope.
Local Open Scope list_scope.

(** ** JavaScript values *)

#[local] Set Warnings "-register-all".

Inductive value : Type :=
| VUndefined
| VNull
| VBool (b : bool)
| VNumber (x : spec_float)
| VString (s : string)
| VArray (addr : nat) (elems : list value)
| VObject (addr : nat) (props : list (string * value)).

Definition properties : Type := list (string * value).

(** [number_of_Z z] is the binary64 value of the integer literal [z]. *)
Definition number_of_Z (z : Z) : spec_float := binary_normalize 53 1024 z 0 false.

Definition NaN : spec_float := S754_nan.

Definition is_NaN (x : spec_float) : bool :=
  match x with S754_nan => true | _ => false end.

(** ToBoolean: the falsy values are [undefined], [null], [false], [+0],
    [-0], [NaN] and the empty string. *)
Definition ToBoolean (v : value) : bool :=
  match v with
  | VUndefined | VNull => false
  | VBool b => b
  | VNumber (S754_zero _) | VNumber S754_nan => false
  | VNumber _ => true
  | VString s => negb (s =? "")
  | VArray _ _ | VObject _ _ => true
  end.

(** [a === b]. *)
Definition strict_equals (a b : value) : bool :=
  match a, b with
  | VUndefined, VUndefined => true
  | VNull, VNull => true
  | VBool x, VBool y => Bool.eqb x y
  | VNumber x, VNumber y => SFeqb x y
  | VString x, VString y => (x =? y)
  | VArray r _, VArray r' _ => Nat.eqb r r'
  | VObject r _, VObject r' _ => Nat.eqb r r'
  | _, _ => false
  end.

(** SameValueZero, the comparison of [Array.prototype.includes]: as [===]
    except that [NaN] equals [NaN]. *)
Definition SameValueZero (a b : value) : bool :=
  match a, b with
  | VNumber S754_nan, VNumber S754_nan => true
  | _, _ => strict_equals a b
  end.

(** [arr.includes(x)]. *)
Definition includes (arr : list value) (x : value) : bool :=
  existsb (fun e => SameValueZero e x) arr.

(** [typeof v === 'string']. *)
Definition is_string (v : value) : bool :=
  match v with VString _ => true | _ => false end.

Definition is_nullish (v : value) : bool :=
  match v with VUndefined | VNull => true | _ => false end.

(** Own property lookup in a property list. *)
Fixpoint own_property (ps : properties) (key : string) : option value :=
  match ps with
  | [] => None
  | (k, v) :: ps' => if k =? key then Some v else own_property ps' key
  end.

Definition Object_keys {A : Type} (o : list (string * A)) : list string := map fst o.

(** [{...o, [key]: v}] as a property list: [key] keeps its place when [o]
    has it already, and is appended otherwise. *)
Fixpoint set_property (ps : properties) (key : string) (v : value) : properties :=
  match ps with
  | [] => [(key, v)]
  | (k, w) :: ps' =>
      if k =? key then (k, v) :: ps' else (k, w) :: set_property ps' key v
  end.

(** The own enumerable properties an object spread copies. *)
Definition own_properties (v : value) : properties :=
  match v with VObject _ ps => ps | _ => [] end.

(** ** Strings *)

(** [s.split(sep)] for a separator that matches exactly one code unit:
    the pieces between the separators, empty pieces included; a string
    without separator is its own single piece. *)
Fixpoint split_on (sep : ascii -> bool) (s : string) : list string :=
  match s with
  | EmptyString => [EmptyString]
  | String c s' =>
      if sep c then EmptyString :: split_on sep s'
      else match split_on sep s' with
           | piece :: pieces => String c piece :: pieces
           | [] => [String c EmptyString]
           end
  end.

Definition code (c : ascii) : N := N_of_ascii c.

Definition line_feed : ascii := ascii_of_N 10.

(** The code units that [\s] matches: TAB, LF, VT, FF, CR, SP and NBSP. *)
Definition is_white_space (c : ascii) : bool :=
  let n := code c in
  ((9 <=? n) && (n <=? 13) || (n =? 32) || (n =? 160))%N.

(** [.] matches every code unit but the line terminators LF and CR. *)
Definition is_line_terminator (c : ascii) : bool :=
  let n := code c in ((n =? 10) || (n =? 13))%N.

Definition is_digit (c : ascii) : bool :=
  let n := code c in ((48 <=? n) && (n <=? 57))%N.

(** The code units that [\w] matches, and that [\b] takes for word
    characters: [a-z], [A-Z], [0-9] and [_]. *)
Definition is_word_char (c : ascii) : bool :=
  let n := code c in
  ((97 <=? n) && (n <=? 122) || (65 <=? n) && (n <=? 90)
   || (48 <=? n) && (n <=? 57) || (n =? 95))%N.

(** Canonicalize of a pattern without the [u] flag and with the [i] flag:
    the code unit of [toUpperCase] when that is a single code unit and
    does not take a code unit above 127 below 128.  In the range 0..255:
    [a-z] and the letters 224..254 other than the division sign 247 lose
    32; the micro sign 181 and y-diaeresis 255 go to 924 and 376; sharp s
    223 has a two-unit upper case and stays. *)
Definition Canonicalize (c : ascii) : N :=
  let n := code c in
  if ((97 <=? n) && (n <=? 122))%N then (n - 32)%N
  else if ((224 <=? n) && (n <=? 254) && negb (n =? 247))%N then (n - 32)%N
  else if (n =? 181)%N then 924%N
  else if (n =? 255)%N then 376%N
  else n.

(** [row.charAt(0) === ExistenceCharacter]. *)
Definition ExistenceCharacter : ascii := "E"%char.

Definition isExist (row : string) : bool :=
  match row with
  | String c _ => Ascii.eqb c ExistenceCharacter
  | EmptyString => false
  end.

(** [row.substr(1)]. *)
Definition substr1 (row : string) : string :=
  match row with
  | String _ rest => rest
  | EmptyString => EmptyString
  end.

(** ** Regular expressions

    [filterByText] builds [new RegExp('\\b' + word + '\\b', 'i')] from a
    word of the query, so any pattern text can reach the constructor.  The
    patterns made of the following terms are interpreted here; a pattern
    with a group, a class, a brace, an alternation or another escape is
    left to the host. *)

Inductive assertion : Type :=
| ABegin              (* ^ *)
| AEnd                (* $ *)
| AWordBoundary       (* \b *)
| ANotWordBoundary.   (* \B *)

Inductive charset : Type :=
| CsChar (c : ascii)          (* a pattern character, or an escaped syntax character *)
| CsAny                       (* . *)
| CsDigit (negated : bool)    (* \d \D *)
| CsWord (negated : bool)     (* \w \W *)
| CsSpace (negated : bool).   (* \s \S *)

Inductive quantifier : Type :=
| QOne
| QStar   (* * and *? *)
| QPlus   (* + and +? *)
| QOpt.   (* ? and ?? *)

Inductive term : Type :=
| TAssert (a : assertion)
| TAtom (cs : charset) (q : quantifier).

(** The outcome of reading a pattern: its terms, a SyntaxError, or a
    pattern outside the fragment. *)
Inductive parsed : Type :=
| Fragment (r : list term)
| SyntaxError
| Foreign.

Definition emit (t : term) (k : parsed) : parsed :=
  match k with
  | Fragment r => Fragment (t :: r)
  | _ => k
  end.

(** The atom read last, while its quantifier may still follow. *)
Inductive pending : Type :=
| PNone
| PAtom (cs : charset)
| PQuantified (cs : charset) (q : quantifier).

Definition flush (p : pending) (k : parsed) : parsed :=
  match p with
  | PNone => k
  | PAtom cs => emit (TAtom cs QOne) k
  | PQuantified cs q => emit (TAtom cs q) k
  end.

Inductive token : Type :=
| KAssert (a : assertion)
| KAtom (cs : charset)
| KQuantifier (q : quantifier)
| KForeign.

(** SyntaxCharacter: ^ $ \ . * + ? ( ) [ ] { } | *)
Definition is_syntax_char (c : ascii) : bool :=
  existsb (Ascii.eqb c) (list_ascii_of_string "^$\.*+?()[]{}|").

Definition classify (c : ascii) : token :=
  if Ascii.eqb c "^" then KAssert ABegin
  else if Ascii.eqb c "$" then KAssert AEnd
  else if Ascii.eqb c "." then KAtom CsAny
  else if Ascii.eqb c "*" then KQuantifier QStar
  else if Ascii.eqb c "+" then KQuantifier QPlus
  else if Ascii.eqb c "?" then KQuantifier QOpt
  else if is_syntax_char c then KForeign
  else KAtom (CsChar c).

(** The character after a backslash. *)
Definition classify_escape (e : ascii) : token :=
  if Ascii.eqb e "b" then KAssert AWordBoundary
  else if Ascii.eqb e "B" then KAssert ANotWordBoundary
  else if Ascii.eqb e "d" then KAtom (CsDigit false)
  else if Ascii.eqb e "D" then KAtom (CsDigit true)
  else if Ascii.eqb e "w" then KAtom (CsWord false)
  else if Ascii.eqb e "W" then KAtom (CsWord true)
  else if Ascii.eqb e "s" then KAtom (CsSpace false)
  else if Ascii.eqb e "S" then KAtom (CsSpace true)
  else if is_syntax_char e || Ascii.eqb e "/" then KAtom (CsChar e)
  else KForeign.

(** One step of the reader on a token, [rest] being the outcome of the
    reader on what follows (under the pending atom it is given).  A
    quantifier with nothing to repeat (at the start, after an assertion,
    after a quantified atom and its optional lazy mark) is a SyntaxError. *)
Definition step_token (p : pending) (k : token) (is_question_mark : bool)
    (rest : pending -> parsed) : parsed :=
  match k with
  | KQuantifier q =>
      match p with
      | PAtom cs => rest (PQuantified cs q)
      | PQuantified cs q0 =>
          if is_question_mark then emit (TAtom cs q0) (rest PNone) else SyntaxError
      | PNone => SyntaxError
      end
  | KAssert a => flush p (emit (TAssert a) (rest PNone))
  | KAtom cs => flush p (rest (PAtom cs))
  | KForeign => Foreign
  end.

Fixpoint parse_pattern (p : pending) (s : string) : parsed :=
  match s with
  | EmptyString => flush p (Fragment [])
  | String c rest =>
      if Ascii.eqb c "\" then
        match rest with
        | EmptyString => SyntaxError
        | String e rest' =>
            step_token p (classify_escape e) false (fun p' => parse_pattern p' rest')
        end
      else
        step_token p (classify c) (Ascii.eqb c "?") (fun p' => parse_pattern p' rest)
  end.

Definition IsWordChar (c : option ascii) : bool :=
  match c with
  | Some c => is_word_char c
  | None => false
  end.

Definition first_char (s : string) : option ascii :=
  match s with
  | String c _ => Some c
  | EmptyString => None
  end.

(** An assertion at a position, given the character before it ([None] at
    the start of the input) and the input from it on. *)
Definition holds (a : assertion) (prev : option ascii) (s : string) : bool :=
  match a with
  | ABegin => match prev with None => true | Some _ => false end
  | AEnd => match s with EmptyString => true | String _ _ => false end
  | AWordBoundary => xorb (IsWordChar prev) (IsWordChar (first_char s))
  | ANotWordBoundary => negb (xorb (IsWordChar prev) (IsWordChar (first_char s)))
  end.

(** A character against a set, under the [i] flag. *)
Definition accepts (cs : charset) (c : ascii) : bool :=
  match cs with
  | CsChar p => (Canonicalize c =? Canonicalize p)%N
  | CsAny => negb (is_line_terminator c)
  | CsDigit negated => xorb negated (is_digit c)
  | CsWord negated => xorb negated (is_word_char c)
  | CsSpace negated => xorb negated (is_white_space c)
  end.

(** One character of the set, then [k]. *)
Definition one_then (cs : charset) (k : option ascii -> string -> bool)
    (s : string) : bool :=
  match s with
  | String c s' => accepts cs c && k (Some c) s'
  | EmptyString => false
  end.

(** Any number of characters of the set, then [k]. *)
Fixpoint many_then (cs : charset) (k : option ascii -> string -> bool)
    (prev : option ascii) (s : string) : bool :=
  k prev s ||
  match s with
  | String c s' => accepts cs c && many_then cs k (Some c) s'
  | EmptyString => false
  end.

(** Whether the terms match at a position.  [test] only asks whether
    some match exists, so the order in which a backtracking matcher tries
    the repetitions does not show. *)
Fixpoint match_here (r : list term) (prev : option ascii) (s : string) : bool :=
  match r with
  | [] => true
  | TAssert a :: r' => holds a prev s && match_here r' prev s
  | TAtom cs q :: r' =>
      match q with
      | QOne => one_then cs (match_here r') s
      | QOpt => match_here r' prev s || one_then cs (match_here r') s
      | QStar => many_then cs (match_here r') prev s
      | QPlus => one_then cs (many_then cs (match_here r')) s
      end
  end.

(** Whether the terms match at some position of the input. *)
Fixpoint search (r : list term) (prev : option ascii) (s : string) : bool :=
  match_here r prev s ||
  match s with
  | String c s' => search r (Some c) s'
  | EmptyString => false
  end.

(** ** Effects

    Code that can throw returns an [option]; code that can throw and that
    allocates objects is a computation of [M], which threads the next free
    address. *)

Notation "'let?' x ':=' e 'in' k" :=
  (match e with Some x => k | None => None end)
  (at level 10, x pattern, e at level 100, k at level 200, only parsing).

Definition M (A : Type) : Type := nat -> option (A * nat).

Definition ret {A : Type} (a : A) : M A := fun next => Some (a, next).

Definition bind {A B : Type} (m : M A) (f : A -> M B) : M B :=
  fun next => match m next with
              | Some (a, next') => f a next'
              | None => None
              end.

Definition lift {A : Type} (o : option A) : M A :=
  fun next => match o with
              | Some a => Some (a, next)
              | None => None
              end.

(** The address of a new object. *)
Definition alloc : M nat := fun next => Some (next, S next).

Notation "'let!' x ':=' e 'in' k" := (bind e (fun x => k))
  (at level 10, x pattern, e at level 100, k at level 200, only parsing).

(** [arr.filter(f)] and [arr.map(f)] for a callback that can throw: the
    callback runs on the elements in order and the first exception ends
    the call. *)
Fixpoint Array_filter (f : value -> option bool) (arr : list value)
  : option (list value) :=
  match arr with
  | [] => Some []
  | x :: arr' =>
      let? keep := f x in
      let? rest := Array_filter f arr' in
      Some (if keep then x :: rest else rest)
  end.

Fixpoint Array_map (f : value -> M value) (arr : list value) : M (list value) :=
  match arr with
  | [] => ret []
  | x :: arr' =>
      let! y := f x in
      let! rest := Array_map f arr' in
      ret (y :: rest)
  end.

(** ** The host *)

Class Host : Type := {
  (** [readFile(filename, {encoding: 'utf-8'})]: the decoded content, or
      [None] when the promise is rejected. *)
  readFile : string -> option string;
  (** [JSON.parse(text)]: [None] for a SyntaxError, and otherwise the
      value built from the next free address on, with the next free
      address after it. *)
  JSON_parse : string -> option (nat -> value * nat);
  (** ToNumber of a string. *)
  StringToNumber : string -> spec_float;
  (** [Array.prototype.toString] on the elements of an array; it throws
      when the conversion of an element throws. *)
  Array_toString : list value -> option string;
  (** [v[key]] when [key] is not in the property list of [v]: a property
      [v] inherits, an index or the length of a string or an array, and
      [undefined] in all other cases. *)
  host_property : value -> string -> value;
  (** [new RegExp(pattern, 'i')] for a pattern outside the fragment: the
      [test] method of the expression, or [None] for a SyntaxError. *)
  RegExp_host : string -> option (string -> bool);
  (** [arr.sort(compare)]: [None] when a call of [compare] throws. *)
  Array_sort : (value -> value -> option Z) -> list value -> option (list value);
  Array_sort_permutation : forall compare arr sorted,
    Array_sort compare arr = Some sorted -> Permutation arr sorted;
  Array_sort_returns : forall compare arr,
    (forall a b, In a arr -> In b arr -> compare a b <> None) ->
    Array_sort compare arr <> None
}.

Section Engine.

Context {host : Host}.

(** [entry[field]]; a TypeError on [null] and [undefined]. *)
Definition Get (entry : value) (field : string) : option value :=
  match entry with
  | VUndefined | VNull => None
  | VObject _ ps =>
      Some match own_property ps field with
           | Some v => v
           | None => host_property entry field
           end
  | _ => Some (host_property entry field)
  end.

(** ToPrimitive with hint number.  An object without a [toString] of its
    own inherits [valueOf], which returns the object, and [toString],
    which returns the text below; an own [toString] in a property list
    holds a value that cannot be called, and the conversion throws. *)
Definition ToPrimitive (v : value) : option value :=
  match v with
  | VObject _ ps =>
      match own_property ps "toString" with
      | Some _ => None
      | None => Some (VString "[object Object]")
      end
  | VArray _ elems => let? s := Array_toString elems in Some (VString s)
  | _ => Some v
  end.

(** ToNumber of a primitive value. *)
Definition ToNumber (v : value) : spec_float :=
  match v with
  | VUndefined => NaN
  | VNull => S754_zero false
  | VBool true => number_of_Z 1
  | VBool false => S754_zero false
  | VNumber x => x
  | VString s => StringToNumber s
  | VArray _ _ | VObject _ _ => NaN
  end.

(** [a < b]: two strings compare by code units; any other pair compares
    as numbers, and no number is below or above [NaN]. *)
Definition less_than (a b : value) : option bool :=
  let? pa := ToPrimitive a in
  let? pb := ToPrimitive b in
  Some match pa, pb with
       | VString x, VString y => String.ltb x y
       | _, _ => SFltb (ToNumber pa) (ToNumber pb)
       end.

(** [a > b]. *)
Definition greater_than (a b : value) : option bool := less_than b a.

(** ** Filters, sort and projection options *)

(** [{$eq?: T[K]; $gt?: T[K]; $lt?: T[K]; $in?: T[K][]}].  Reading an
    absent [$eq], [$gt] or [$lt] gives [undefined]. *)
Record condition : Type := {
  cond_eq : value;
  cond_gt : value;
  cond_lt : value;
  cond_in : option (list value)
}.

(** [ConditionalFilter<T>]: the conditions by field. *)
Definition ConditionalFilter : Type := list (string * condition).

(** A value of [Filter<T>]: its reserved keys, each absent or present, and
    the conditions of its other keys. *)
Record Filter : Type := {
  q_and : option (list ConditionalFilter);
  q_or : option (list ConditionalFilter);
  q_text : option string;
  q_fields : ConditionalFilter
}.

(** [SortOptions<T>]: the direction, [1] or [-1], by field. *)
Definition SortOptions : Type := list (string * Z).

(** [ProjectionOptions<T>]: the fields that carry the flag [1]. *)
Definition ProjectionOptions : Type := list (string * unit).

Record FindOptions : Type := {
  opt_sort : option SortOptions;
  opt_projection : option ProjectionOptions
}.

Record Database : Type := {
  filename : string;
  fullTextSearchFieldNames : list string
}.

Definition isTextFilter (filter : Filter) : bool :=
  match q_text filter with Some _ => true | None => false end.

Definition isMultiFilter (filter : Filter) : bool :=
  match q_and filter with Some _ => true | None => false end
  || match q_or filter with Some _ => true | None => false end.

(** ** The filter evaluators *)

(** [result && test]: [test] is evaluated only when [result] is true. *)
Definition and_then (result : bool) (test : option bool) : option bool :=
  if result then test else Some false.

(** [result || test]. *)
Definition or_else (result : bool) (test : option bool) : option bool :=
  if result then Some true else test.

(** The body of the loop of [filterByConditionOrArray] for one field. *)
Definition apply_condition (entry : value) (field : string) (c : condition)
    (result : bool) : option bool :=
  let? result :=
    if ToBoolean (cond_eq c)
    then and_then result
           (let? x := Get entry field in Some (strict_equals x (cond_eq c)))
    else Some result in
  let? result :=
    if ToBoolean (cond_lt c)
    then and_then result (let? x := Get entry field in less_than x (cond_lt c))
    else Some result in
  let? result :=
    if ToBoolean (cond_gt c)
    then and_then result (let? x := Get entry field in greater_than x (cond_gt c))
    else Some result in
  match cond_in c with
  | Some arr => and_then result (let? x := Get entry field in Some (includes arr x))
  | None => Some result
  end.

Fixpoint filter_fields (entry : value) (filter : ConditionalFilter)
    (result : bool) : option bool :=
  match filter with
  | [] => Some result
  | (field, c) :: filter' =>
      let? result := apply_condition entry field c result in
      filter_fields entry filter' result
  end.

Definition filterByConditionOrArray (entry : value) (filter : ConditionalFilter)
  : option bool :=
  filter_fields entry filter true.

(** [arr.reduce((carry, condition) => carry && f(condition), true)] and
    its counterpart with [||] and [false]. *)
Fixpoint reduce_and (f : ConditionalFilter -> option bool)
    (arr : list ConditionalFilter) (carry : bool) : option bool :=
  match arr with
  | [] => Some carry
  | c :: arr' => let? carry := and_then carry (f c) in reduce_and f arr' carry
  end.

Fixpoint reduce_or (f : ConditionalFilter -> option bool)
    (arr : list ConditionalFilter) (carry : bool) : option bool :=
  match arr with
  | [] => Some carry
  | c :: arr' => let? carry := or_else carry (f c) in reduce_or f arr' carry
  end.

(** [filter.$or!.reduce] is a TypeError when [$or] is absent. *)
Definition filterByMultiFilter (entry : value) (filter : Filter) : option bool :=
  match q_and filter with
  | Some conditions => reduce_and (filterByConditionOrArray entry) conditions true
  | None =>
      match q_or filter with
      | Some conditions => reduce_or (filterByConditionOrArray entry) conditions false
      | None => None
      end
  end.

(** A constructed regular expression. *)
Inductive RegExp : Type :=
| Compiled (r : list term)
| Native (test : string -> bool).

(** [new RegExp(pattern, 'i')]. *)
Definition new_RegExp (pattern : string) : option RegExp :=
  match parse_pattern PNone pattern with
  | Fragment r => Some (Compiled r)
  | SyntaxError => None
  | Foreign => let? test := RegExp_host pattern in Some (Native test)
  end.

(** [regExp.test(s)]. *)
Definition RegExp_test (regExp : RegExp) (s : string) : bool :=
  match regExp with
  | Compiled r => search r None s
  | Native test => test s
  end.

(** The inner loop of [filterByText], over the field names. *)
Fixpoint text_fields (regExp : RegExp) (entry : value) (fields : list string)
    (result : bool) : option bool :=
  match fields with
  | [] => Some result
  | field :: fields' =>
      let? v := Get entry field in
      let result :=
        match v with
        | VString s => result || RegExp_test regExp s
        | _ => result
        end in
      text_fields regExp entry fields' result
  end.

(** The outer loop of [filterByText], over the words. *)
Fixpoint text_words (fields : list string) (entry : value) (words : list string)
    (result : bool) : option bool :=
  match words with
  | [] => Some result
  | word :: words' =>
      let? regExp := new_RegExp ("\b" ++ word ++ "\b") in
      let? result := text_fields regExp entry fields result in
      text_words fields entry words' result
  end.

(** [filterByText(entry, filter)]; [filter.$text.split] is a TypeError
    when [$text] is absent. *)
Definition filterByText (db : Database) (entry : value) (filter : Filter)
  : option bool :=
  let? text := q_text filter in
  text_words (fullTextSearchFieldNames db) entry (split_on is_white_space text) false.

(** ** The comparator *)

Fixpoint sort (a b : value) (sortOptions : SortOptions) : option Z :=
  match sortOptions with
  | [] => Some 0%Z
  | (field, direction) :: sortOptions' =>
      let? x := Get a field in
      let? y := Get b field in
      let? above := greater_than x y in
      if above then Some direction
      else
        let? below := less_than x y in
        if below then Some (- direction)%Z
        else sort a b sortOptions'
  end.

(** ** The projector *)

(** The loop of [project]: each round allocates the object of the literal
    [{...newEntry, [field]: entry[field]}]. *)
Fixpoint project_fields (entry : value) (fields : list string) (newEntry : value)
  : M value :=
  match fields with
  | [] => ret newEntry
  | field :: fields' =>
      let! addr := alloc in
      let! v := lift (Get entry field) in
      project_fields entry fields'
        (VObject addr (set_property (own_properties newEntry) field v))
  end.

Definition project (entry : value) (projectionOptions : ProjectionOptions)
  : M value :=
  let! addr := alloc in
  project_fields entry (Object_keys projectionOptions) (VObject addr []).

(** ** The query executor *)

(** [JSON.parse(text)] as a computation. *)
Definition parse (text : string) : M value :=
  fun next => let? build := JSON_parse text in Some (build next).

(** The loop of [find] over the rows: a row that does not start with the
    existence character is passed over, the rest of any other row is
    parsed and pushed. *)
Fixpoint decode (rows : list string) : M (list value) :=
  match rows with
  | [] => ret []
  | row :: rows' =>
      if isExist row then
        let! entry := parse (substr1 row) in
        let! entries := decode rows' in
        ret (entry :: entries)
      else decode rows'
  end.

(** The dispatch of [find] on the shape of the query.  The last branch is
    reached by a query without reserved key, whose own keys are its
    fields. *)
Definition select (db : Database) (query : Filter) (entries : list value)
  : option (list value) :=
  if isMultiFilter query then
    Array_filter (fun entry => filterByMultiFilter entry query) entries
  else if isTextFilter query then
    Array_filter (fun entry => filterByText db entry query) entries
  else
    Array_filter (fun entry => filterByConditionOrArray entry (q_fields query)) entries.

(** The statements of [find] under [if (options)]. *)
Definition apply_options (options : option FindOptions) (entries : list value)
  : M (list value) :=
  match options with
  | None => ret entries
  | Some options =>
      let! entries :=
        match opt_sort options with
        | Some sortOptions =>
            lift (Array_sort (fun a b => sort a b sortOptions) entries)
        | None => ret entries
        end in
      match opt_projection options with
      | Some projectionOptions =>
          Array_map (fun entry => project entry projectionOptions) entries
      | None => ret entries
      end
  end.

(** The callback of [find] on the content of the file. *)
Definition find_in (db : Database) (query : Filter) (options : option FindOptions)
    (rawData : string) : M (list value) :=
  let rows := split_on (Ascii.eqb line_feed) rawData in
  let! entries := decode rows in
  let! entries := lift (select db query entries) in
  apply_options options entries.

(** [find(query, options?)] of exercise 14; [None] is a rejected promise. *)
Definition find (db : Database) (query : Filter) (options : option FindOptions)
  : M (list value) :=
  let! rawData := lift (readFile (filename db)) in
  find_in db query options rawData.

(** [find(query)] of exercise 13. *)
Definition find_13 (db : Database) (query : Filter) : M (list value) :=
  let! rawData := lift (readFile (filename db)) in
  let rows := split_on (Ascii.eqb line_feed) rawData in
  let! entries := decode rows in
  lift (select db query entries).

End Engine.

(** ** Object literals of the filter language *)

(** The number of an integer literal. *)
Definition number (z : Z) : value := VNumber (number_of_Z z).

(** [{}] as a condition: no operator at all. *)
Definition no_condition : condition :=
  {| cond_eq := VUndefined; cond_gt := VUndefined; cond_lt := VUndefined;
     cond_in := None |}.

(** [{$eq: v}], [{$gt: v}], [{$lt: v}] and [{$in: arr}]. *)
Definition eq_clause (v : value) : condition :=
  {| cond_eq := v; cond_gt := VUndefined; cond_lt := VUndefined; cond_in := None |}.

Definition gt_clause (v : value) : condition :=
  {| cond_eq := VUndefined; cond_gt := v; cond_lt := VUndefined; cond_in := None |}.

Definition lt_clause (v : value) : condition :=
  {| cond_eq := VUndefined; cond_gt := VUndefined; cond_lt := v; cond_in := None |}.

Definition in_clause (arr : list value) : condition :=
  {| cond_eq := VUndefined; cond_gt := VUndefined; cond_lt := VUndefined;
     cond_in := Some arr |}.

(** [{...fields}], [{$and: conditions}], [{$or: conditions}] and
    [{$text: text}]. *)
Definition conditional_query (fields : ConditionalFilter) : Filter :=
  {| q_and := None; q_or := None; q_text := None; q_fields := fields |}.

Definition and_query (conditions : list ConditionalFilter) : Filter :=
  {| q_and := Some conditions; q_or := None; q_text := None; q_fields := [] |}.

Definition or_query (conditions : list ConditionalFilter) : Filter :=
  {| q_and := None; q_or := Some conditions; q_text := None; q_fields := [] |}.

Definition text_query (text : string) : Filter :=
  {| q_and := None; q_or := None; q_text := Some text; q_fields := [] |}.

(** ** A host for the scenarios

    The scenarios of this file run on the host below: a file system that
    holds two logs, a [JSON.parse] for the documents of these logs, and an
    insertion sort for [Array.prototype.sort].  A field that a record
    lacks reads as [undefined].  The scenarios compare numbers and
    [undefined] with numbers and strings with strings, and build no
    pattern outside the fragment, so the number of a string, the text of
    an array and the patterns of the host are never asked for. *)

Module Sample.

Definition quote : string := String (ascii_of_nat 34) EmptyString.

(** A document: its members as key, JSON text of the value, and value. *)
Definition document : Type := list (string * string * value).

Definition member_text (m : string * string * value) : string :=
  let '(key, text, _) := m in (quote ++ key ++ quote ++ ":" ++ text)%string.

Definition document_text (d : document) : string :=
  ("{" ++ String.concat "," (map member_text d) ++ "}")%string.

Definition document_properties (d : document) : properties :=
  map (fun m : string * string * value => let '(key, _, v) := m in (key, v)) d.

Definition name_is (name : string) : string * string * value :=
  ("name", (quote ++ name ++ quote)%string, VString name).

Definition age_is (text : string) (age : Z) : string * string * value :=
  ("age", text, VNumber (number_of_Z age)).

Definition ann : document := [name_is "Ann"; age_is "30" 30].
Definition bob : document := [name_is "Bob"; age_is "25" 25].
Definition cid : document := [name_is "Cid"; age_is "25" 25].
Definition ann_without_age : document := [name_is "Ann"].

Definition documents : list document := [ann; bob; cid; ann_without_age].

(** [JSON.parse] on the text [null] and on the text of a document. *)
Definition parse_document (text : string) : option (nat -> value * nat) :=
  if text =? "null" then Some (fun next => (VNull, next))
  else
    match List.find (fun d => document_text d =? text) documents with
    | Some d => Some (fun next => (VObject next (document_properties d), S next))
    | None => None
    end.

Definition new_line : string := String line_feed EmptyString.

(** The log of the scenario: Ann and Cid exist, the line of Bob carries
    another marker. *)
Definition users_log : string :=
  ("E" ++ document_text ann ++ new_line ++
   "X" ++ document_text bob ++ new_line ++
   "E" ++ document_text cid)%string.

(** A second log, with the single line [Enull]. *)
Definition null_log : string := "Enull".

Definition read (name : string) : option string :=
  if name =? "users.db" then Some users_log
  else if name =? "null.db" then Some null_log
  else None.

(** A stable insertion sort: [x] goes before the first element it is not
    above. *)
Fixpoint insert (compare : value -> value -> option Z) (x : value)
    (sorted : list value) : option (list value) :=
  match sorted with
  | [] => Some [x]
  | y :: sorted' =>
      let? c := compare x y in
      if (c <=? 0)%Z then Some (x :: y :: sorted')
      else let? rest := insert compare x sorted' in Some (y :: rest)
  end.

Fixpoint insertion_sort (compare : value -> value -> option Z) (arr : list value)
  : option (list value) :=
  match arr with
  | [] => Some []
  | x :: arr' => let? sorted := insertion_sort compare arr' in insert compare x sorted
  end.

Lemma insert_permutation compare x sorted out :
  insert compare x sorted = Some out -> Permutation (x :: sorted) out.
Proof.
  revert out. induction sorted as [|y sorted IH]; simpl; intros out H.
  - injection H as <-. apply Permutation_refl.
  - destruct (compare x y) as [c|]; [|discriminate].
    destruct (c <=? 0)%Z.
    + injection H as <-. apply Permutation_refl.
    + destruct (insert compare x sorted) as [rest|]; [|discriminate].
      injection H as <-.
      apply perm_trans with (y :: x :: sorted); [apply perm_swap|].
      apply perm_skip. now apply IH.
Qed.

Lemma insertion_sort_permutation compare arr sorted :
  insertion_sort compare arr = Some sorted -> Permutation arr sorted.
Proof.
  revert sorted. induction arr as [|x arr IH]; simpl; intros sorted H.
  - injection H as <-. apply perm_nil.
  - destruct (insertion_sort compare arr) as [s|]; [|discriminate].
    apply perm_trans with (x :: s); [apply perm_skip; now apply IH|].
    now apply insert_permutation with compare.
Qed.

Lemma insert_returns compare x sorted :
  (forall y, In y sorted -> compare x y <> None) ->
  insert compare x sorted <> None.
Proof.
  induction sorted as [|y sorted IH]; simpl; intros H; [discriminate|].
  destruct (compare x y) as [c|] eqn:E.
  - destruct (c <=? 0)%Z; [discriminate|].
    destruct (insert compare x sorted) eqn:E'; [discriminate|].
    exfalso. apply IH; auto.
  - exfalso. apply (H y); auto.
Qed.

Lemma insertion_sort_returns compare arr :
  (forall a b, In a arr -> In b arr -> compare a b <> None) ->
  insertion_sort compare arr <> None.
Proof.
  induction arr as [|x arr IH]; simpl; intros H; [discriminate|].
  assert (IH' : insertion_sort compare arr <> None).
  { apply IH. intros a b Ha Hb. apply H; now right. }
  destruct (insertion_sort compare arr) as [s|] eqn:E; [|congruence].
  apply insert_returns. intros y Hy. apply H; [now left|right].
  apply Permutation_in with s; [|exact Hy].
  apply Permutation_sym. now apply insertion_sort_permutation with compare.
Qed.

Definition host : Host :=
  {| readFile := read;
     JSON_parse := parse_document;
     StringToNumber := fun _ => NaN;
     Array_toString := fun _ => Some EmptyString;
     host_property := fun _ _ => VUndefined;
     RegExp_host := fun _ => None;
     Array_sort := insertion_sort;
     Array_sort_permutation := insertion_sort_permutation;
     Array_sort_returns := insertion_sort_returns |}.

Definition db : Database :=
  {| filename := "users.db"; fullTextSearchFieldNames := ["name"] |}.

Definition record_ann : value :=
  VObject 0 [("name", VString "Ann"); ("age", number 30)].

Definition record_cid : value :=
  VObject 1 [("name", VString "Cid"); ("age", number 25)].

(** [{age: {$lt: 30}}] and [{sort: {name: 1}}]. *)
Definition younger_than_30 : Filter :=
  conditional_query [("age", lt_clause (number 30))].

Definition by_name : option FindOptions :=
  Some {| opt_sort := Some [("name", 1%Z)]; opt_projection := None |}.

(** [{age: 1, name: -1}]. *)
Definition by_age_then_name : SortOptions := [("age", 1%Z); ("name", (-1)%Z)].

(** Records that are in no log: Bob, Ann without age, and two records
    whose name is a text. *)
Definition record_bob : value :=
  VObject 2 [("name", VString "Bob"); ("age", number 25)].

Definition record_ann_without_age : value :=
  VObject 3 [("name", VString "Ann")].

Definition record_cat : value := VObject 4 [("name", VString "cat")].

Definition record_sentence : value := VObject 5 [("name", VString "The Cat sat")].

(** [{age: {$gt: 20}, name: {$in: []}}]. *)
Definition older_than_20_named_nothing : ConditionalFilter :=
  [("age", gt_clause (number 20)); ("name", in_clause [])].

(** A database on the second log, without full-text field. *)
Definition null_db : Database :=
  {| filename := "null.db"; fullTextSearchFieldNames := [] |}.

End Sample.

(** ** The detection order in the words of the specification

    A filter with [$and] or [$or] is a MultiFilter; otherwise a filter with
    [$text] is a TextFilter; any other filter is a ConditionalFilter. *)

Inductive shape : Type :=
| MultiShape
| TextShape
| ConditionalShape.

Definition has_key {A : Type} (o : option A) : bool :=
  match o with Some _ => true | None => false end.

Definition detect (query : Filter) : shape :=
  if has_key (q_and query) || has_key (q_or query) then MultiShape
  else if has_key (q_text query) then TextShape
  else ConditionalShape.

(** ** Relations used to state the properties *)

(** [subsequence kept all]: [kept] is [all] with some elements left out,
    the others in their order. *)
Inductive subsequence {A : Type} : list A -> list A -> Prop :=
| subsequence_nil : subsequence [] []
| subsequence_keep x l l' : subsequence l l' -> subsequence (x :: l) (x :: l')
| subsequence_drop x l l' : subsequence l l' -> subsequence l (x :: l').

Definition sort_of (options : option FindOptions) : option SortOptions :=
  match options with
  | Some o => opt_sort o
  | None => None
  end.

Definition projection_of (options : option FindOptions) : option ProjectionOptions :=
  match options with
  | Some o => opt_projection o
  | None => None
  end.

(** ** Whole words, in the words of the specification

    [w] occurs in [s] as a whole word: [s] holds a stretch of characters
    that is [w] up to case, with a word boundary on both sides. *)

Fixpoint last_of (prev : option ascii) (s : string) : option ascii :=
  match s with
  | EmptyString => prev
  | String c s' => last_of (Some c) s'
  end.

(** The position between [before] and [after] is a word boundary: a word
    character stands on exactly one side of it. *)
Definition at_word_boundary (before after : string) : bool :=
  xorb (IsWordChar (last_of None before)) (IsWordChar (first_char after)).

Fixpoint same_letters (u w : string) : bool :=
  match u, w with
  | EmptyString, EmptyString => true
  | String a u', String c w' =>
      (Canonicalize a =? Canonicalize c)%N && same_letters u' w'
  | _, _ => false
  end.

Definition whole_word_in (w s : string) : Prop :=
  exists before mid after,
    s = (before ++ mid ++ after)%string
    /\ same_letters mid w = true
    /\ at_word_boundary before (mid ++ after) = true
    /\ at_word_boundary (before ++ mid) after = true.

(** A word without syntax character of the pattern language. *)
Fixpoint plain_word (w : string) : bool :=
  match w with
  | EmptyString => true
  | String c w' => negb (is_syntax_char c) && plain_word w'
  end.

(** The terms that match the characters of [w] one by one, and the
    expression for [w] as a whole word. *)
Fixpoint literal (w : string) : list term :=
  match w with
  | EmptyString => []
  | String c w' => TAtom (CsChar c) QOne :: literal w'
  end.

Definition whole_word (w : string) : list term :=
  TAssert AWordBoundary :: literal w ++ [TAssert AWordBoundary].

(** ** Notions of the statements that depend on the host *)

Section Vocabulary.

Context {host : Host}.

(** The evaluator of each shape. *)
Definition evaluate_as (sh : shape) (db : Database) (query : Filter)
    (entry : value) : option bool :=
  match sh with
  | MultiShape => filterByMultiFilter entry query
  | TextShape => filterByText db entry query
  | ConditionalShape => filterByConditionOrArray entry (q_fields query)
  end.

(** The properties that the loop of [project] has written after the
    fields [fields], from [ps] on. *)
Definition written (entry : value) (fields : list string) (ps : properties)
  : properties :=
  fold_left
    (fun ps field =>
       match Get entry field with
       | Some v => set_property ps field v
       | None => ps
       end)
    fields ps.

(** [entry] is what [JSON.parse] built from the rest of the row [row],
    and [row] starts with the existence character. *)
Definition decoded_from (row : string) (entry : value) : Prop :=
  isExist row = true
  /\ exists build next, JSON_parse (substr1 row) = Some build
                       /\ entry = fst (build next).

(** Every row that starts with the existence character can be parsed. *)
Definition all_visible_decode (rows : list string) : Prop :=
  forall row, In row rows -> isExist row = true ->
              JSON_parse (substr1 row) <> None.

(** What one round of the loop of [sort] finds on a field. *)
Inductive verdict : Type :=
| Above     (* a[field] > b[field] *)
| Below     (* a[field] < b[field], and not above *)
| Neither.  (* neither of the two *)

Definition field_verdict (a b : value) (field : string) : option verdict :=
  let? x := Get a field in
  let? y := Get b field in
  let? above := greater_than x y in
  if above then Some Above
  else let? below := less_than x y in Some (if below then Below else Neither).

(** The comparator in the words of the specification: the first field on
    which the two records differ decides, by the direction when
    [a[field] > b[field]] and by its negation otherwise.  Two values
    differ when they are not strictly equal. *)
Fixpoint compare_spec (a b : value) (spec : SortOptions) : option Z :=
  match spec with
  | [] => Some 0%Z
  | (field, direction) :: spec' =>
      let? x := Get a field in
      let? y := Get b field in
      if strict_equals x y then compare_spec a b spec'
      else
        let? above := greater_than x y in
        Some (if above then direction else (- direction)%Z)
  end.

(** Two values that the relational operators order like their type: two
    strings, or two numbers other than NaN. *)
Definition comparable (x y : value) : bool :=
  match x, y with
  | VString _, VString _ => true
  | VNumber x, VNumber y => negb (is_NaN x) && negb (is_NaN y)
  | _, _ => false
  end.

(** Whether the expression finds a match in the field, when the field
    holds a string. *)
Definition field_matches (regExp : RegExp) (entry : value) (field : string) : bool :=
  match Get entry field with
  | Some (VString s) => RegExp_test regExp s
  | _ => false
  end.

End Vocabulary.

(** * Properties *)

Section Properties.

Context {host : Host}.

(** ** Conditional filters *)

Lemma and_then_false test : and_then false test = Some false.
Proof. reflexivity. Qed.

Lemma apply_condition_false entry field c :
  apply_condition entry field c false = Some false.
Proof.
  unfold apply_condition.
  destruct (ToBoolean (cond_eq c)), (ToBoolean (cond_lt c)),
    (ToBoolean (cond_gt c)), (cond_in c); reflexivity.
Qed.

Lemma filter_fields_false entry filter :
  filter_fields entry filter false = Some false.
Proof.
  induction filter as [|[field c] filter IH]; simpl; [reflexivity|].
  now rewrite apply_condition_false.
Qed.

(** A condition without truthy operand and without [$in] leaves the
    result as it is: none of its operators is applied. *)
Lemma apply_condition_skipped entry field c result :
  ToBoolean (cond_eq c) = false -> ToBoolean (cond_lt c) = false ->
  ToBoolean (cond_gt c) = false -> cond_in c = None ->
  apply_condition entry field c result = Some result.
Proof.
  intros He Hl Hg Hi. unfold apply_condition. now rewrite He, Hl, Hg, Hi.
Qed.

(** C1.  A filter with the single clause [$eq: v] on a field [f] returns,
    when [v] is truthy, the strict equality of [entry[f]] and [v], and
    returns true whatever [entry[f]] is when [v] is falsy (undefined,
    null, false, a zero, NaN or the empty string); [$gt] and [$lt] are
    gated by the truthiness of their operand in the same way, and [$in]
    is applied whenever it is present. *)
Theorem single_clause_gating :
  forall (entry : value) (f : string) (v : value) (arr : list value),
    filterByConditionOrArray entry [(f, eq_clause v)]
      = (if ToBoolean v
         then let? x := Get entry f in Some (strict_equals x v)
         else Some true)
    /\ filterByConditionOrArray entry [(f, gt_clause v)]
      = (if ToBoolean v
         then let? x := Get entry f in greater_than x v
         else Some true)
    /\ filterByConditionOrArray entry [(f, lt_clause v)]
      = (if ToBoolean v
         then let? x := Get entry f in less_than x v
         else Some true)
    /\ filterByConditionOrArray entry [(f, in_clause arr)]
      = (let? x := Get entry f in Some (includes arr x))
    /\ filterByConditionOrArray entry [(f, no_condition)] = Some true.
Proof.
  intros entry f v arr.
  unfold filterByConditionOrArray, filter_fields, apply_condition. simpl.
  repeat split.
  - destruct (ToBoolean v); [|reflexivity].
    destruct (Get entry f) as [x|]; [|reflexivity]. now destruct (strict_equals x v).
  - destruct (ToBoolean v); [|reflexivity].
    destruct (Get entry f) as [x|]; [|reflexivity].
    now destruct (greater_than x v) as [[|]|].
  - destruct (ToBoolean v); [|reflexivity].
    destruct (Get entry f) as [x|]; [|reflexivity].
    now destruct (less_than x v) as [[|]|].
  - destruct (Get entry f) as [x|]; [|reflexivity]. now destruct (includes arr x).
Qed.

Lemma apply_condition_in_nil entry field c result :
  cond_in c = Some [] ->
  apply_condition entry field c result = None
  \/ apply_condition entry field c result = Some false.
Proof.
  intros Hin. unfold apply_condition. rewrite Hin.
  repeat match goal with
         | |- context [match ?e with Some _ => _ | None => None end] =>
             destruct e as [[|]|]; simpl; auto
         | |- context [if ?b then _ else _] => destruct b; simpl; auto
         end.
Qed.

Lemma filter_fields_in_nil entry filter f c result :
  In (f, c) filter -> cond_in c = Some [] ->
  filter_fields entry filter result <> Some true.
Proof.
  intros Hmem Hin. revert result.
  induction filter as [|[g d] filter IH]; intros result; [destruct Hmem|].
  simpl. destruct Hmem as [Heq|Hmem].
  - injection Heq as -> ->.
    destruct (apply_condition_in_nil entry f c result Hin) as [E|E]; rewrite E.
    + discriminate.
    + rewrite filter_fields_false. discriminate.
  - destruct (apply_condition entry g d result) as [r|]; [|discriminate].
    now apply IH.
Qed.

(** C9.  A filter that holds a clause [$in: []] on some field never
    matches: the clause is applied, since an empty array is truthy, and no
    value is included in the empty array.  On a record the filter that
    consists of this clause returns false. *)
Theorem empty_in_matches_nothing :
  forall (entry : value) (filter : ConditionalFilter) (f : string) (c : condition),
    In (f, c) filter -> cond_in c = Some [] ->
    filterByConditionOrArray entry filter <> Some true
    /\ (forall addr props,
          filterByConditionOrArray (VObject addr props) [(f, in_clause [])]
            = Some false).
Proof.
  intros entry filter f c Hmem Hin. split.
  - now apply filter_fields_in_nil with f c.
  - intros addr props. reflexivity.
Qed.

(** ** Boolean composites *)

Lemma Array_filter_all (f : value -> option bool) arr :
  (forall x, f x = Some true) -> Array_filter f arr = Some arr.
Proof.
  intros H. induction arr as [|x arr IH]; simpl; [reflexivity|].
  now rewrite H, IH.
Qed.

Lemma Array_filter_none (f : value -> option bool) arr :
  (forall x, f x = Some false) -> Array_filter f arr = Some [].
Proof.
  intros H. induction arr as [|x arr IH]; simpl; [reflexivity|].
  now rewrite H, IH.
Qed.

(** C6.  [{$and: []}] matches every entry and [{$or: []}] matches none:
    the seeds of the two folds are true and false.  So [find] keeps every
    decoded entry under the first query and none under the second. *)
Theorem empty_composites :
  forall (db : Database) (entry : value) (entries : list value),
    filterByMultiFilter entry (and_query []) = Some true
    /\ filterByMultiFilter entry (or_query []) = Some false
    /\ select db (and_query []) entries = Some entries
    /\ select db (or_query []) entries = Some [].
Proof.
  intros db entry entries. repeat split.
  - now apply Array_filter_all.
  - now apply Array_filter_none.
Qed.

(** C10.  A filter that holds [$and] is evaluated on its [$and] alone, by
    [filterByMultiFilter] and by the dispatch of [find]: when it holds
    [$or] as well, the result is that of [{$and: ...}], whatever [$or]
    holds. *)
Theorem and_shadows_or :
  forall (db : Database) (entry : value) (entries : list value)
         (conjuncts disjuncts : list ConditionalFilter)
         (text : option string) (fields : ConditionalFilter),
    let both := {| q_and := Some conjuncts; q_or := Some disjuncts;
                   q_text := text; q_fields := fields |} in
    filterByMultiFilter entry both
      = reduce_and (filterByConditionOrArray entry) conjuncts true
    /\ filterByMultiFilter entry both = filterByMultiFilter entry (and_query conjuncts)
    /\ select db both entries = select db (and_query conjuncts) entries.
Proof. intros. repeat split. Qed.

(** ** Dispatch *)

(** C2.  [find], in exercise 14 and in exercise 13, evaluates the query by
    the evaluator of the shape that the detection order gives: MultiFilter
    with [$and] or [$or], else TextFilter with [$text], else
    ConditionalFilter.  A query with both [$text] and [$and] is a
    MultiFilter. *)
Theorem dispatch_order :
  forall (db : Database) (query : Filter) (options : option FindOptions),
    find db query options
      = (let! rawData := lift (readFile (filename db)) in
         let! entries := decode (split_on (Ascii.eqb line_feed) rawData) in
         let! entries :=
           lift (Array_filter (evaluate_as (detect query) db query) entries) in
         apply_options options entries)
    /\ find_13 db query
       = (let! rawData := lift (readFile (filename db)) in
          let! entries := decode (split_on (Ascii.eqb line_feed) rawData) in
          lift (Array_filter (evaluate_as (detect query) db query) entries))
    /\ (forall conjuncts disjuncts text fields,
          detect {| q_and := Some conjuncts; q_or := disjuncts;
                    q_text := Some text; q_fields := fields |} = MultiShape).
Proof.
  intros db query options. split; [|split; [|reflexivity]];
    unfold find, find_13, find_in, select, detect, isMultiFilter, isTextFilter, has_key;
    destruct (q_and query), (q_or query), (q_text query); reflexivity.
Qed.

(** ** Projection *)

Lemma own_property_set ps key v key' :
  own_property (set_property ps key v) key'
    = if key =? key' then Some v else own_property ps key'.
Proof.
  induction ps as [|[k w] ps IH]; simpl.
  - reflexivity.
  - destruct (k =? key) eqn:E; simpl.
    + apply String.eqb_eq in E. subst k.
      now destruct (key =? key').
    + destruct (k =? key') eqn:E'; [|exact IH].
      apply String.eqb_eq in E'. subst k. now rewrite String.eqb_sym, E.
Qed.

Lemma own_property_keys (ps : properties) key :
  In key (Object_keys ps) <-> own_property ps key <> None.
Proof.
  induction ps as [|[k w] ps IH]; simpl.
  - split; [intros []|congruence].
  - destruct (k =? key) eqn:E.
    + apply String.eqb_eq in E. split; [discriminate|auto].
    + apply String.eqb_neq in E. rewrite <- IH. split; [intros [|]|]; tauto.
Qed.

Lemma Object_keys_set_new ps key v :
  ~ In key (Object_keys ps) ->
  Object_keys (set_property ps key v) = Object_keys ps ++ [key].
Proof.
  induction ps as [|[k w] ps IH]; simpl; intros Hnew; [reflexivity|].
  destruct (k =? key) eqn:E.
  - apply String.eqb_eq in E. tauto.
  - simpl. f_equal. apply IH. tauto.
Qed.

Lemma Get_record addr props field :
  exists v, Get (VObject addr props) field = Some v.
Proof. simpl. eauto. Qed.

Lemma project_fields_record addr props fields a ps next :
  exists a',
    project_fields (VObject addr props) fields (VObject a ps) next
      = Some (VObject a' (written (VObject addr props) fields ps),
              next + length fields)
    /\ (a' = a \/ next <= a').
Proof.
  revert a ps next. induction fields as [|f fields IH]; intros a ps next.
  - exists a. simpl. unfold ret. rewrite Nat.add_0_r. auto.
  - destruct (IH next
                (set_property ps f
                   match own_property props f with
                   | Some v => v
                   | None => host_property (VObject addr props) f
                   end) (S next)) as [a' [E Ha]].
    exists a'. split.
    + simpl. unfold bind, alloc, lift. simpl. simpl in E. rewrite E.
      now rewrite Nat.add_succ_r.
    + right. destruct Ha; lia.
Qed.

Lemma written_property entry fields ps key :
  (forall f, In f fields -> Get entry f <> None) ->
  own_property (written entry fields ps) key
    = if existsb (String.eqb key) fields then Get entry key
      else own_property ps key.
Proof.
  revert ps. induction fields as [|f fields IH]; intros ps Hget; [reflexivity|].
  simpl. destruct (Get entry f) as [v|] eqn:E; [|exfalso; apply (Hget f); simpl; auto].
  rewrite IH by (intros g Hg; apply Hget; simpl; auto).
  rewrite own_property_set.
  destruct (existsb (String.eqb key) fields) eqn:Ex.
  - now rewrite orb_true_r.
  - rewrite orb_false_r, String.eqb_sym.
    destruct (key =? f) eqn:Ek; [|reflexivity].
    apply String.eqb_eq in Ek. now subst.
Qed.

Lemma written_keys entry fields ps :
  (forall f, In f fields -> Get entry f <> None) ->
  NoDup (Object_keys ps ++ fields) ->
  Object_keys (written entry fields ps) = Object_keys ps ++ fields.
Proof.
  revert ps. induction fields as [|f fields IH]; intros ps Hget Hnd; simpl.
  - now rewrite app_nil_r.
  - destruct (Get entry f) as [v|] eqn:E; [|exfalso; apply (Hget f); simpl; auto].
    assert (Hnew : ~ In f (Object_keys ps)).
    { intros Hin. apply NoDup_remove_2 in Hnd. apply Hnd.
      apply in_or_app. now left. }
    rewrite IH.
    + rewrite Object_keys_set_new by exact Hnew. now rewrite <- app_assoc.
    + intros g Hg. apply Hget. simpl. auto.
    + rewrite Object_keys_set_new by exact Hnew. now rewrite <- app_assoc.
Qed.

Lemma existsb_eqb_In key (fields : list string) :
  existsb (String.eqb key) fields = true <-> In key fields.
Proof.
  rewrite existsb_exists. split.
  - intros [x [Hx E]]. apply String.eqb_eq in E. now subst.
  - intros H. exists key. split; [exact H|apply String.eqb_refl].
Qed.

(** C8.  [project] on a record [R] returns a record at an address that
    was free before the call, so it is no object that existed already;
    its fields are exactly the fields of the projection options, each
    with the value of [R[field]], and in the order of the options.
    Projecting [{name: 1}] on [{name: "Ann", age: 30}] gives
    [{name: "Ann"}]. *)
Theorem project_keeps_flagged_fields :
  forall (addr : nat) (props : properties) (P : ProjectionOptions) (next : nat),
    let R := VObject addr props in
    (exists addr' props',
        project R P next = Some (VObject addr' props', S (next + length P))
        /\ next <= addr'
        /\ (addr < next -> strict_equals (VObject addr' props') R = false)
        /\ (forall f, In f (Object_keys props') <-> In f (Object_keys P))
        /\ (forall f, In f (Object_keys P) -> own_property props' f = Get R f)
        /\ (forall f, ~ In f (Object_keys P) -> own_property props' f = None)
        /\ (NoDup (Object_keys P) -> Object_keys props' = Object_keys P))
    /\ (forall a b,
          project
            (VObject a [("name", VString "Ann"); ("age", VNumber (number_of_Z 30))])
            [("name", tt)] b
          = Some (VObject (S b) [("name", VString "Ann")], S (S b))).
Proof.
  intros addr props P next R. split; [|reflexivity].
  assert (Hget : forall f, In f (Object_keys P) -> Get R f <> None)
    by (intros f _; destruct (Get_record addr props f) as [v E]; unfold R; congruence).
  destruct (project_fields_record addr props (Object_keys P) next [] (S next))
    as [addr' [E Ha]].
  assert (Hprop : forall f,
             own_property (written R (Object_keys P) []) f
             = if existsb (String.eqb f) (Object_keys P) then Get R f else None)
    by (intros f; now rewrite written_property).
  exists addr', (written R (Object_keys P) []).
  split; [|split; [|split; [|split; [|split; [|split]]]]].
  - unfold project, bind, alloc. fold R in E. rewrite E. unfold Object_keys.
    now rewrite length_map.
  - destruct Ha; lia.
  - intros Hold. simpl. apply Nat.eqb_neq. destruct Ha; lia.
  - intros f. rewrite own_property_keys, Hprop.
    destruct (existsb (String.eqb f) (Object_keys P)) eqn:Ex.
    + apply existsb_eqb_In in Ex. split; [auto|intros _; now apply Hget].
    + split; [congruence|]. intros H. apply existsb_eqb_In in H. congruence.
  - intros f Hf. rewrite Hprop. apply existsb_eqb_In in Hf. now rewrite Hf.
  - intros f Hf. rewrite Hprop.
    destruct (existsb (String.eqb f) (Object_keys P)) eqn:Ex; [|reflexivity].
    apply existsb_eqb_In in Ex. tauto.
  - intros Hnd. now rewrite written_keys.
Qed.

(** ** The record decoder *)

Lemma decode_visible rows next :
  decode rows next = decode (filter isExist rows) next.
Proof.
  revert next. induction rows as [|row rows IH]; intros next; [reflexivity|].
  simpl. destruct (isExist row) eqn:E; [|apply IH].
  simpl. rewrite E. unfold bind. destruct (parse (substr1 row) next) as [[entry n]|];
    [|reflexivity].
  now rewrite IH.
Qed.

Lemma decode_entries rows next entries next' :
  decode rows next = Some (entries, next') ->
  Forall2 decoded_from (filter isExist rows) entries.
Proof.
  revert next entries. induction rows as [|row rows IH]; intros next entries H.
  - injection H as <- <-. constructor.
  - simpl in *. destruct (isExist row) eqn:E; [|now apply IH with next].
    unfold bind, parse in H.
    destruct (JSON_parse (substr1 row)) as [build|] eqn:P; [|discriminate].
    destruct (build next) as [entry n] eqn:B.
    destruct (decode rows n) as [[rest n']|] eqn:D; [|discriminate].
    injection H as <- <-. constructor; [|now apply IH with n].
    split; [exact E|]. exists build, next. now rewrite B.
Qed.

Lemma decode_fails rows next :
  decode rows next = None <->
  exists row, In row rows /\ isExist row = true /\ JSON_parse (substr1 row) = None.
Proof.
  revert next. induction rows as [|row rows IH]; intros next; simpl.
  - split; [discriminate|intros [row [[] _]]].
  - destruct (isExist row) eqn:E.
    + unfold bind, parse.
      destruct (JSON_parse (substr1 row)) as [build|] eqn:P.
      * destruct (build next) as [entry n].
        destruct (decode rows n) as [[rest n']|] eqn:D.
        -- split; [discriminate|]. intros [r [[<-|Hr] [Hv Hp]]]; [congruence|].
           assert (decode rows n = None) by (apply IH; eauto). congruence.
        -- split; [|reflexivity]. intros _. apply IH in D.
           destruct D as [r [Hr Hrest]]. exists r. auto.
      * split; [|reflexivity]. intros _. exists row. auto.
    + rewrite IH. split; intros [r [Hr [Hv Hp]]].
      * exists r. auto.
      * destruct Hr as [<-|Hr]; [congruence|]. exists r. auto.
Qed.

Lemma decode_succeeds rows next :
  all_visible_decode rows <-> decode rows next <> None.
Proof.
  rewrite decode_fails. unfold all_visible_decode. split.
  - intros H [row [Hr [Hv Hp]]]. now apply (H row).
  - intros H row Hr Hv Hp. apply H. eauto.
Qed.

Lemma decode_length rows next entries next' :
  decode rows next = Some (entries, next') ->
  length entries = length (filter isExist rows).
Proof.
  intros H. apply decode_entries in H. symmetry. eapply Forall2_length. exact H.
Qed.

(** ** The query executor *)

Lemma Array_filter_subsequence f arr kept :
  Array_filter f arr = Some kept -> subsequence kept arr.
Proof.
  revert kept. induction arr as [|x arr IH]; simpl; intros kept H.
  - injection H as <-. constructor.
  - destruct (f x) as [keep|]; [|discriminate].
    destruct (Array_filter f arr) as [rest|]; [|discriminate].
    injection H as <-. destruct keep; constructor; now apply IH.
Qed.

Lemma select_subsequence db query entries kept :
  select db query entries = Some kept -> subsequence kept entries.
Proof.
  unfold select. destruct (isMultiFilter query); [|destruct (isTextFilter query)];
    apply Array_filter_subsequence.
Qed.

Lemma find_13_is_find db query next :
  find_13 db query next = find db query None next.
Proof.
  unfold find_13, find, find_in, bind, lift, apply_options, ret.
  destruct (readFile (filename db)) as [rawData|]; [|reflexivity].
  destruct (decode _ next) as [[entries n]|]; [|reflexivity].
  now destruct (select db query entries).
Qed.

(** C3.  Whatever the query and the options, a row that does not start
    with the existence character has no part in [find]: the rows are
    decoded as if it were not there.  The entries that the filter keeps
    are decoded from rows that start with the existence character, in the
    order of the rows; sorting permutes them, and the result holds them,
    or their projections when a projection is asked for. *)
Theorem only_existing_rows :
  forall (db : Database) (query : Filter) (options : option FindOptions)
         (rawData : string) (next : nat) (result : list value) (next' : nat),
    readFile (filename db) = Some rawData ->
    find db query options next = Some (result, next') ->
    let rows := split_on (Ascii.eqb line_feed) rawData in
    exists decoded kept ordered mid,
      decode rows next = Some (decoded, mid)
      /\ decode (filter isExist rows) next = Some (decoded, mid)
      /\ Forall2 decoded_from (filter isExist rows) decoded
      /\ subsequence kept decoded
      /\ Permutation kept ordered
      /\ (sort_of options = None -> ordered = kept)
      /\ match projection_of options with
         | None => result = ordered /\ next' = mid
         | Some P =>
             Array_map (fun entry => project entry P) ordered mid
               = Some (result, next')
         end.
Proof.
  intros db query options rawData next result next' Hread Hfind rows.
  unfold find, bind, lift in Hfind. rewrite Hread in Hfind.
  unfold find_in, bind in Hfind. fold rows in Hfind.
  destruct (decode rows next) as [[decoded mid]|] eqn:D; [|discriminate].
  unfold lift in Hfind.
  destruct (select db query decoded) as [kept|] eqn:S; [|discriminate].
  assert (Hsub := select_subsequence _ _ _ _ S).
  assert (Hvis : decode (filter isExist rows) next = Some (decoded, mid))
    by now rewrite <- decode_visible.
  assert (Hfrom := decode_entries _ _ _ _ D).
  destruct options as [[[sortOptions|] [P|]]|]; simpl in *; unfold bind, lift, ret in Hfind.
  - destruct (Array_sort _ kept) as [ordered|] eqn:Q; [|discriminate].
    exists decoded, kept, ordered, mid.
    repeat split; auto; [|discriminate].
    now apply Array_sort_permutation in Q.
  - destruct (Array_sort _ kept) as [ordered|] eqn:Q; [|discriminate].
    injection Hfind as <- <-. exists decoded, kept, ordered, mid.
    repeat split; auto; [|discriminate].
    now apply Array_sort_permutation in Q.
  - exists decoded, kept, kept, mid. repeat split; auto.
  - injection Hfind as <- <-. exists decoded, kept, kept, mid. repeat split; auto.
  - injection Hfind as <- <-. exists decoded, kept, kept, mid. repeat split; auto.
Qed.

Lemma Array_filter_total f arr :
  (forall x, In x arr -> f x <> None) -> Array_filter f arr <> None.
Proof.
  induction arr as [|x arr IH]; simpl; intros H; [discriminate|].
  destruct (f x) as [keep|] eqn:E; [|exfalso; apply (H x); auto].
  assert (IH' : Array_filter f arr <> None) by (apply IH; intros y Hy; apply H; auto).
  destruct (Array_filter f arr); [discriminate|congruence].
Qed.

(** C4.  When a row that starts with the existence character cannot be
    parsed, [find] fails as a whole, whatever the other rows hold.  When
    every such row can be parsed, one entry is decoded for each of them,
    and [find] is the evaluation of the filter and of the options on these
    entries: it returns unless that evaluation throws.  For the query
    [{}] without options, which throws on no entry, [find] returns if and
    only if every row that starts with the existence character can be
    parsed. *)
Theorem decode_failure_is_fatal :
  forall (db : Database) (query : Filter) (options : option FindOptions)
         (rawData : string) (next : nat),
    readFile (filename db) = Some rawData ->
    let rows := split_on (Ascii.eqb line_feed) rawData in
    ((exists row, In row rows /\ isExist row = true
                  /\ JSON_parse (substr1 row) = None) ->
     find db query options next = None)
    /\ (find db query options next <> None -> all_visible_decode rows)
    /\ (all_visible_decode rows ->
        exists decoded mid,
          decode rows next = Some (decoded, mid)
          /\ length decoded = length (filter isExist rows)
          /\ find db query options next
             = (let! entries := lift (select db query decoded) in
                apply_options options entries) mid)
    /\ (find db (conditional_query []) None next <> None
        <-> all_visible_decode rows).
Proof.
  intros db query options rawData next Hread rows.
  assert (Hfind : forall q o,
             find db q o next
             = match decode rows next with
               | Some (entries, mid) =>
                   (let! entries := lift (select db q entries) in
                    apply_options o entries) mid
               | None => None
               end).
  { intros q o. unfold find, bind, lift. rewrite Hread. reflexivity. }
  assert (Hfatal : forall q o,
             (exists row, In row rows /\ isExist row = true
                          /\ JSON_parse (substr1 row) = None) ->
             find db q o next = None).
  { intros q o Hbad. rewrite Hfind.
    apply (decode_fails rows next) in Hbad. now rewrite Hbad. }
  assert (Hconv : forall q o, find db q o next <> None -> all_visible_decode rows).
  { intros q o Hsome row Hr Hv Hp. apply Hsome. apply Hfatal. eauto. }
  split; [apply Hfatal|]. split; [apply Hconv|]. split.
  - intros Hall. apply (decode_succeeds rows next) in Hall.
    destruct (decode rows next) as [[decoded mid]|] eqn:D; [|congruence].
    exists decoded, mid. split; [reflexivity|]. split.
    + now apply decode_length with next mid.
    + rewrite Hfind; try rewrite D; reflexivity.
  - split; [apply Hconv|]. intros Hall.
    apply (decode_succeeds rows next) in Hall. rewrite Hfind.
    destruct (decode rows next) as [[decoded mid]|]; [|congruence].
    unfold bind, lift, select. simpl.
    assert (Hkeep : Array_filter
                      (fun entry => filterByConditionOrArray entry []) decoded
                    <> None)
      by (apply Array_filter_total; intros; discriminate).
    destruct (Array_filter _ decoded); [discriminate|congruence].
Qed.

(** ** The comparator *)

Lemma sort_round a b field direction spec :
  sort a b ((field, direction) :: spec)
    = (let? v := field_verdict a b field in
       match v with
       | Above => Some direction
       | Below => Some (- direction)%Z
       | Neither => sort a b spec
       end).
Proof.
  simpl. unfold field_verdict.
  destruct (Get a field) as [x|]; [|reflexivity].
  destruct (Get b field) as [y|]; [|reflexivity].
  destruct (greater_than x y) as [[|]|]; try reflexivity.
  now destruct (less_than x y) as [[|]|].
Qed.

Lemma sort_undecided a b pre spec :
  Forall (fun fd => field_verdict a b (fst fd) = Some Neither) pre ->
  sort a b (pre ++ spec) = sort a b spec.
Proof.
  induction 1 as [|[f d] pre Hf _ IH]; [reflexivity|].
  rewrite <- app_comm_cons, sort_round. simpl in Hf. now rewrite Hf.
Qed.

Lemma sort_agree a a' b b' spec :
  (forall f, In f (Object_keys spec) -> Get a f = Get a' f /\ Get b f = Get b' f) ->
  sort a b spec = sort a' b' spec.
Proof.
  induction spec as [|[f d] spec IH]; intros H; [reflexivity|].
  rewrite !sort_round. unfold field_verdict.
  destruct (H f) as [-> ->]; [simpl; auto|].
  rewrite IH; [reflexivity|]. intros g Hg. apply H. simpl. auto.
Qed.

Lemma SFcompare_swap x y :
  SFcompare y x = option_map CompOpp (SFcompare x y).
Proof.
  destruct x as [sx|sx| |sx mx ex], y as [sy|sy| |sy my ey]; simpl;
    try reflexivity; try (destruct sx; reflexivity); try (destruct sy; reflexivity);
    try (destruct sx, sy; reflexivity).
  destruct sx, sy; try reflexivity; simpl; f_equal;
    rewrite (Z.compare_antisym ex ey); destruct (ex ?= ey)%Z; simpl; try reflexivity;
    rewrite (Pos.compare_cont_antisym mx my Eq); reflexivity.
Qed.

Lemma numbers_trichotomy x y :
  comparable (VNumber x) (VNumber y) = true ->
  (SFltb y x = false /\ SFltb x y = false) <-> SFeqb x y = true.
Proof.
  intros Hc. unfold SFltb, SFeqb. rewrite (SFcompare_swap x y).
  assert (Hsome : SFcompare x y <> None)
    by (destruct x as [sx|sx| |sx mx ex], y as [sy|sy| |sy my ey];
        simpl in *; discriminate).
  destruct (SFcompare x y) as [[| |]|]; simpl; intuition congruence.
Qed.

Lemma string_compare_refl s : String.compare s s = Eq.
Proof.
  induction s as [|c s IH]; simpl; [reflexivity|].
  unfold Ascii.compare. now rewrite N.compare_refl.
Qed.

Lemma strings_trichotomy x y :
  (String.ltb y x = false /\ String.ltb x y = false) <-> (x =? y) = true.
Proof.
  unfold String.ltb. rewrite (String.compare_antisym y x).
  destruct (String.compare x y) eqn:E; simpl.
  - apply String.compare_eq_iff in E. subst. rewrite String.eqb_refl. tauto.
  - split; [intros []; congruence|]. intros H. apply String.eqb_eq in H. subst.
    rewrite string_compare_refl in E. discriminate.
  - split; [intros []; congruence|]. intros H. apply String.eqb_eq in H. subst.
    rewrite string_compare_refl in E. discriminate.
Qed.

Lemma comparable_ordered x y :
  comparable x y = true ->
  exists above below,
    greater_than x y = Some above /\ less_than x y = Some below
    /\ ((above = false /\ below = false) <-> strict_equals x y = true).
Proof.
  intros Hc.
  destruct x as [| |bx|x|x|rx ex|rx px], y as [| |by'|y|y|ry ey|ry py];
    try discriminate.
  - exists (SFltb y x), (SFltb x y).
    split; [reflexivity|split; [reflexivity|]]. now apply numbers_trichotomy.
  - exists (String.ltb y x), (String.ltb x y).
    split; [reflexivity|split; [reflexivity|]]. apply strings_trichotomy.
Qed.

Lemma sort_comparable a b spec :
  (forall f, In f (Object_keys spec) ->
             exists x y, Get a f = Some x /\ Get b f = Some y
                         /\ comparable x y = true) ->
  sort a b spec = compare_spec a b spec.
Proof.
  induction spec as [|[f d] spec IH]; intros H; [reflexivity|].
  simpl. destruct (H f) as [x [y [-> [-> Hc]]]]; [simpl; auto|].
  destruct (comparable_ordered x y Hc) as [above [below [-> [-> Heq]]]].
  rewrite IH by (intros g Hg; apply H; simpl; auto).
  destruct above.
  - destruct (strict_equals x y); [|reflexivity].
    destruct (proj2 Heq eq_refl). discriminate.
  - destruct below.
    + destruct (strict_equals x y); [|reflexivity].
      destruct (proj2 Heq eq_refl). discriminate.
    + destruct (strict_equals x y); [reflexivity|].
      assert (false = true) by (apply Heq; auto). discriminate.
Qed.

(** C7.  [sort] goes through the fields of the sort options in their
    order.  The first field on which [a[field] > b[field]] or
    [a[field] < b[field]] holds decides: the result is the direction in
    the first case and its negation in the second.  A field on which
    neither holds is passed over, and the result is 0 when this is so for
    every field.  Only the fields of the sort options are read.  On two
    strings, and on two numbers other than NaN, neither holds exactly when
    the two values are strictly equal, so that on records whose listed
    fields hold such values the first field that differs decides. *)
Theorem first_ordered_field_decides :
  (forall a b pre f d post,
      Forall (fun fd => field_verdict a b (fst fd) = Some Neither) pre ->
      (field_verdict a b f = Some Above ->
       sort a b (pre ++ (f, d) :: post) = Some d)
      /\ (field_verdict a b f = Some Below ->
          sort a b (pre ++ (f, d) :: post) = Some (- d)%Z))
  /\ (forall a b spec,
        Forall (fun fd => field_verdict a b (fst fd) = Some Neither) spec ->
        sort a b spec = Some 0%Z)
  /\ (forall a a' b b' spec,
        (forall f, In f (Object_keys spec) ->
                   Get a f = Get a' f /\ Get b f = Get b' f) ->
        sort a b spec = sort a' b' spec)
  /\ (forall x y,
        comparable x y = true ->
        (greater_than x y = Some false /\ less_than x y = Some false)
        <-> strict_equals x y = true)
  /\ (forall a b spec,
        (forall f, In f (Object_keys spec) ->
                   exists x y, Get a f = Some x /\ Get b f = Some y
                               /\ comparable x y = true) ->
        sort a b spec = compare_spec a b spec).
Proof.
  split; [|split; [|split; [|split]]].
  - intros a b pre f d post Hpre.
    rewrite (sort_undecided a b pre _ Hpre), sort_round.
    split; intros ->; reflexivity.
  - intros a b spec Hall.
    rewrite <- (app_nil_r spec). now rewrite (sort_undecided a b spec [] Hall).
  - apply sort_agree.
  - intros x y Hc.
    destruct (comparable_ordered x y Hc) as [above [below [-> [-> Heq]]]].
    rewrite <- Heq. split; intros [E1 E2]; split; congruence.
  - apply sort_comparable.
Qed.

(** ** Full-text search *)

Lemma plain_char c :
  is_syntax_char c = false ->
  Ascii.eqb c "\" = false /\ classify c = KAtom (CsChar c).
Proof.
  intros H. unfold classify. rewrite H. unfold is_syntax_char in H. simpl in H.
  repeat match type of H with
         | (_ || _) = false => apply orb_false_iff in H; destruct H as [? H]
         end.
  repeat match goal with
         | E : Ascii.eqb c _ = false |- _ => rewrite E; clear E
         end.
  split; reflexivity.
Qed.

Lemma parse_plain w p :
  plain_word w = true ->
  parse_pattern p (w ++ "\b")
    = flush p (Fragment (literal w ++ [TAssert AWordBoundary])).
Proof.
  revert p. induction w as [|c w IH]; intros p Hw.
  - destruct p; reflexivity.
  - simpl in Hw. apply andb_true_iff in Hw. destruct Hw as [Hc Hw].
    apply negb_true_iff in Hc. destruct (plain_char c Hc) as [Hb Hk].
    simpl. rewrite Hb, Hk. unfold step_token. rewrite IH by exact Hw.
    destruct p; reflexivity.
Qed.

Lemma new_RegExp_plain w :
  plain_word w = true ->
  new_RegExp ("\b" ++ w ++ "\b") = Some (Compiled (whole_word w)).
Proof.
  intros Hw. unfold new_RegExp.
  change (parse_pattern PNone ("\b" ++ w ++ "\b"))
    with (emit (TAssert AWordBoundary) (parse_pattern PNone (w ++ "\b"))).
  now rewrite parse_plain.
Qed.

Lemma last_of_app prev a b :
  last_of prev (a ++ b) = last_of (last_of prev a) b.
Proof. revert prev. induction a as [|c a IH]; intros prev; simpl; auto. Qed.

Lemma same_letters_nil mid : same_letters mid EmptyString = true -> mid = EmptyString.
Proof. now destruct mid. Qed.

Lemma match_literal w k prev s :
  match_here (literal w ++ k) prev s = true <->
  exists mid rest,
    s = (mid ++ rest)%string /\ same_letters mid w = true
    /\ match_here k (last_of prev mid) rest = true.
Proof.
  revert prev s. induction w as [|c w IH]; intros prev s; simpl.
  - split.
    + intros H. exists EmptyString, s. auto.
    + intros [mid [rest [-> [Hm H]]]]. apply same_letters_nil in Hm. now subst.
  - destruct s as [|a s]; simpl.
    + split; [discriminate|]. intros [mid [rest [E [Hm _]]]].
      destruct mid; simpl in *; discriminate.
    + rewrite andb_true_iff, IH. split.
      * intros [Ha [mid [rest [-> [Hm H]]]]]. exists (String a mid), rest.
        simpl. rewrite Ha, Hm. auto.
      * intros [mid [rest [E [Hm H]]]]. destruct mid as [|a' mid]; [discriminate|].
        simpl in *. injection E as <- ->. apply andb_true_iff in Hm.
        destruct Hm as [Ha Hm]. split; [exact Ha|]. exists mid, rest. auto.
Qed.

Lemma search_somewhere r prev s :
  search r prev s = true <->
  exists before rest,
    s = (before ++ rest)%string /\ match_here r (last_of prev before) rest = true.
Proof.
  revert prev. induction s as [|c s IH]; intros prev; simpl.
  - rewrite orb_false_r. split.
    + intros H. exists EmptyString, EmptyString. auto.
    + intros [before [rest [E H]]]. destruct before; [|discriminate].
      simpl in *. now subst.
  - rewrite orb_true_iff, IH. split.
    + intros [H|[before [rest [-> H]]]].
      * exists EmptyString, (String c s). auto.
      * exists (String c before), rest. auto.
    + intros [before [rest [E H]]]. destruct before as [|c' before]; simpl in *.
      * left. now subst.
      * injection E as <- ->. right. exists before, rest. auto.
Qed.

(** The expression for a whole word finds exactly the whole-word
    occurrences. *)
Lemma whole_word_search w s :
  search (whole_word w) None s = true <-> whole_word_in w s.
Proof.
  unfold whole_word, whole_word_in, at_word_boundary. rewrite search_somewhere.
  split.
  - intros [before [rest [-> H]]]. simpl in H. apply andb_true_iff in H.
    destruct H as [Hb H]. apply match_literal in H.
    destruct H as [mid [after [-> [Hm H]]]]. simpl in H. rewrite andb_true_r in H.
    exists before, mid, after. rewrite last_of_app. auto.
  - intros [before [mid [after [-> [Hm [Hb Ha]]]]]].
    exists before, (mid ++ after)%string. split; [reflexivity|].
    simpl. rewrite Hb. simpl. apply match_literal. exists mid, after.
    rewrite last_of_app in Ha. simpl. rewrite Ha. auto.
Qed.

Lemma Get_total entry field :
  is_nullish entry = false -> exists v, Get entry field = Some v.
Proof. destruct entry; simpl; intros H; try discriminate; eauto. Qed.

Lemma Get_nullish entry field : is_nullish entry = true -> Get entry field = None.
Proof. destruct entry; simpl; intros H; try discriminate; reflexivity. Qed.

Lemma text_fields_total regExp entry fields result :
  is_nullish entry = false ->
  text_fields regExp entry fields result
    = Some (result || existsb (field_matches regExp entry) fields).
Proof.
  intros Hn. revert result. induction fields as [|f fields IH]; intros result; simpl.
  - now rewrite orb_false_r.
  - unfold field_matches at 1. destruct (Get_total entry f Hn) as [v ->].
    rewrite IH. destruct v; try reflexivity. now rewrite orb_assoc.
Qed.

Lemma text_words_round fields entry word words result :
  text_words fields entry (word :: words) result
    = (let? regExp := new_RegExp ("\b" ++ word ++ "\b") in
       let? result := text_fields regExp entry fields result in
       text_words fields entry words result).
Proof. reflexivity. Qed.

Lemma text_words_total fields entry words result :
  is_nullish entry = false ->
  Forall (fun w => plain_word w = true) words ->
  text_words fields entry words result
    = Some (result
            || existsb (fun w => existsb (field_matches (Compiled (whole_word w)) entry)
                                    fields) words).
Proof.
  intros Hn Hw. revert result. induction Hw as [|w words Hplain _ IH]; intros result.
  - simpl. now rewrite orb_false_r.
  - rewrite text_words_round, (new_RegExp_plain w Hplain),
      (text_fields_total _ _ _ _ Hn), IH.
    simpl. now rewrite orb_assoc.
Qed.

Lemma text_words_nullish fields entry words :
  is_nullish entry = true ->
  text_words fields entry words false <> Some true.
Proof.
  intros Hn. induction words as [|w words IH]; [discriminate|].
  rewrite text_words_round.
  destruct (new_RegExp _) as [regExp|]; [|discriminate].
  destruct fields as [|f fields]; simpl; [exact IH|].
  rewrite (Get_nullish entry f Hn). discriminate.
Qed.

(** C5.  For a query text whose words hold no syntax character of the
    pattern language, [filterByText] returns true exactly when some word
    of the text occurs as a whole word, up to case, in the string that
    [entry] holds in some full-text field; a field that holds no string
    is not searched, and on an entry other than null and undefined the
    evaluation returns.  The word cat is not found in concatenate and is
    found in The Cat sat. *)
Theorem text_matches_whole_words :
  forall (db : Database) (entry : value) (text : string),
    Forall (fun w => plain_word w = true) (split_on is_white_space text) ->
    (filterByText db entry (text_query text) = Some true
     <-> exists w f s,
           In w (split_on is_white_space text)
           /\ In f (fullTextSearchFieldNames db)
           /\ Get entry f = Some (VString s)
           /\ whole_word_in w s)
    /\ (is_nullish entry = false ->
        filterByText db entry (text_query text) <> None)
    /\ (forall addr,
          fullTextSearchFieldNames db = ["name"] ->
          filterByText db (VObject addr [("name", VString "concatenate")])
            (text_query "cat")
          = Some false)
    /\ (forall addr,
          fullTextSearchFieldNames db = ["name"] ->
          filterByText db (VObject addr [("name", VString "The Cat sat")])
            (text_query "cat")
          = Some true).
Proof.
  intros db entry text Hplain.
  split; [|split; [|split]];
    try (intros addr Hfields; unfold filterByText; rewrite Hfields; reflexivity).
  - unfold filterByText, text_query, q_text.
    set (words := split_on is_white_space text) in *.
    set (fields := fullTextSearchFieldNames db).
    destruct (is_nullish entry) eqn:Hn.
    + split.
      * intros H. now apply text_words_nullish in H.
      * intros [w [f [s [_ [_ [G _]]]]]]. rewrite (Get_nullish entry f Hn) in G.
        discriminate.
    + rewrite (text_words_total fields entry words false Hn Hplain).
      rewrite orb_false_l. split.
      * intros H. injection H as H. apply existsb_exists in H.
        destruct H as [w [Hw H]]. apply existsb_exists in H.
        destruct H as [f [Hf H]]. unfold field_matches in H.
        destruct (Get entry f) as [[| | | |s| |]|] eqn:G; try discriminate.
        exists w, f, s. repeat split; auto. now apply whole_word_search.
      * intros [w [f [s [Hw [Hf [G H]]]]]]. f_equal.
        apply existsb_exists. exists w. split; [exact Hw|].
        apply existsb_exists. exists f. split; [exact Hf|].
        unfold field_matches. rewrite G. now apply whole_word_search.
  - intros Hn. unfold filterByText, text_query, q_text.
    rewrite (text_words_total _ entry _ false Hn Hplain). discriminate.
Qed.

End Properties.

(** * Further properties of the engine *)

Section Further.

Context {host : Host}.

(** ** Conditional filters as conjunctions *)

Lemma apply_condition_true entry field c result :
  apply_condition entry field c result = Some true ->
  result = true.
Proof.
  destruct result; [reflexivity|]. now rewrite apply_condition_false.
Qed.

Lemma filter_fields_matches entry filter :
  filter_fields entry filter true = Some true <->
  Forall (fun fc => apply_condition entry (fst fc) (snd fc) true = Some true) filter.
Proof.
  induction filter as [|[f c] filter IH]; simpl.
  - split; [constructor|reflexivity].
  - destruct (apply_condition entry f c true) as [[|]|] eqn:E.
    + rewrite IH. split; [now constructor|]. intros H. now inversion H.
    + rewrite filter_fields_false. split; [discriminate|].
      intros H. inversion H as [|? ? H1 _]. simpl in H1. congruence.
    + split; [discriminate|].
      intros H. inversion H as [|? ? H1 _]. simpl in H1. congruence.
Qed.

(** X1.  A conditional filter matches an entry exactly when each of
    its fields, taken alone, matches it; so two filters with the same
    fields in another order match the same entries. *)
Theorem conditional_filter_is_conjunction :
  forall (entry : value) (filter filter' : ConditionalFilter),
    (filterByConditionOrArray entry filter = Some true
     <-> forall f c, In (f, c) filter ->
                     filterByConditionOrArray entry [(f, c)] = Some true)
    /\ (Permutation filter filter' ->
        (filterByConditionOrArray entry filter = Some true
         <-> filterByConditionOrArray entry filter' = Some true)).
Proof.
  intros entry filter filter'.
  assert (Hone : forall f c,
             filterByConditionOrArray entry [(f, c)] = Some true
             <-> apply_condition entry f c true = Some true).
  { intros f c. unfold filterByConditionOrArray. simpl.
    now destruct (apply_condition entry f c true) as [[|]|]. }
  assert (Hall : forall flt,
             filterByConditionOrArray entry flt = Some true
             <-> forall f c, In (f, c) flt ->
                             filterByConditionOrArray entry [(f, c)] = Some true).
  { intros flt. unfold filterByConditionOrArray at 1.
    rewrite filter_fields_matches, Forall_forall. split.
    - intros H f c Hin. apply Hone. exact (H (f, c) Hin).
    - intros H [f c] Hin. simpl. apply Hone. now apply H. }
  split; [apply Hall|].
  intros Hperm. rewrite !Hall. split; intros H f c Hin; apply H.
  - now apply Permutation_in with filter'; [apply Permutation_sym|].
  - now apply Permutation_in with filter.
Qed.

(** X2.  The operators of one condition are conjoined: the condition
    matches exactly when the conditions that hold one of its operators
    each match. *)
Theorem operators_are_conjoined :
  forall (entry : value) (f : string) (c : condition),
    filterByConditionOrArray entry [(f, c)] = Some true
    <-> (filterByConditionOrArray entry [(f, eq_clause (cond_eq c))] = Some true
         /\ filterByConditionOrArray entry [(f, lt_clause (cond_lt c))] = Some true
         /\ filterByConditionOrArray entry [(f, gt_clause (cond_gt c))] = Some true
         /\ filterByConditionOrArray entry
              [(f, {| cond_eq := VUndefined; cond_gt := VUndefined;
                      cond_lt := VUndefined; cond_in := cond_in c |})]
            = Some true).
Proof.
  intros entry f c.
  unfold filterByConditionOrArray, filter_fields, apply_condition. simpl.
  destruct (ToBoolean (cond_eq c)), (ToBoolean (cond_lt c)),
    (ToBoolean (cond_gt c)), (cond_in c) as [arr|]; simpl;
    destruct (Get entry f) as [x|]; simpl;
    try (destruct (strict_equals x (cond_eq c)); simpl);
    try (destruct (less_than x (cond_lt c)) as [[|]|]; simpl);
    try (destruct (greater_than x (cond_gt c)) as [[|]|]; simpl);
    try (destruct (includes arr x); simpl);
    intuition congruence.
Qed.

(** ** Boolean composites as folds *)

Lemma reduce_and_false f conditions : reduce_and f conditions false = Some false.
Proof. induction conditions as [|c conditions IH]; simpl; auto. Qed.

Lemma reduce_or_true f conditions : reduce_or f conditions true = Some true.
Proof. induction conditions as [|c conditions IH]; simpl; auto. Qed.

Lemma reduce_and_matches f conditions :
  reduce_and f conditions true = Some true
  <-> Forall (fun c => f c = Some true) conditions.
Proof.
  induction conditions as [|c conditions IH]; simpl.
  - split; [constructor|reflexivity].
  - destruct (f c) as [[|]|] eqn:E.
    + rewrite IH. split; [now constructor|]. intros H. now inversion H.
    + rewrite reduce_and_false. split; [discriminate|].
      intros H. inversion H. congruence.
    + split; [discriminate|]. intros H. inversion H. congruence.
Qed.

Lemma reduce_or_matches f conditions :
  reduce_or f conditions false = Some true
  <-> exists before c after,
        conditions = before ++ c :: after
        /\ Forall (fun c' => f c' = Some false) before
        /\ f c = Some true.
Proof.
  induction conditions as [|c conditions IH]; simpl.
  - split; [discriminate|]. intros [before [c [after [E _]]]].
    now destruct before.
  - destruct (f c) as [[|]|] eqn:E.
    + rewrite reduce_or_true. split; [|reflexivity]. intros _.
      exists [], c, conditions. repeat split; auto.
    + rewrite IH. split.
      * intros [before [c' [after [-> [Hb Hc]]]]].
        exists (c :: before), c', after. repeat split; auto.
      * intros [before [c' [after [Heq [Hb Hc]]]]].
        destruct before as [|b before]; simpl in Heq; injection Heq as <- ->.
        -- congruence.
        -- inversion Hb; subst. exists before, c', after. auto.
    + split; [discriminate|]. intros [before [c' [after [Heq [Hb Hc]]]]].
      destruct before as [|b before]; simpl in Heq; injection Heq as <- ->.
      * congruence.
      * inversion Hb; subst. congruence.
Qed.

(** X3.  [{$and: conditions}] matches an entry exactly when every
    condition matches it, and [{$or: conditions}] exactly when some
    condition matches it and the conditions before that one return false
    on it (none of them throws).  A composite of one condition matches
    like that condition. *)
Theorem composites_are_folds :
  forall (entry : value) (conditions : list ConditionalFilter)
         (c : ConditionalFilter),
    (filterByMultiFilter entry (and_query conditions) = Some true
     <-> Forall (fun c' => filterByConditionOrArray entry c' = Some true)
           conditions)
    /\ (filterByMultiFilter entry (or_query conditions) = Some true
        <-> exists before c' after,
              conditions = before ++ c' :: after
              /\ Forall (fun d => filterByConditionOrArray entry d = Some false)
                   before
              /\ filterByConditionOrArray entry c' = Some true)
    /\ filterByMultiFilter entry (and_query [c]) = filterByConditionOrArray entry c
    /\ filterByMultiFilter entry (or_query [c]) = filterByConditionOrArray entry c.
Proof.
  intros entry conditions c. split; [|split; [|split]].
  - apply reduce_and_matches.
  - apply reduce_or_matches.
  - unfold filterByMultiFilter. simpl.
    now destruct (filterByConditionOrArray entry c) as [[|]|].
  - unfold filterByMultiFilter. simpl.
    now destruct (filterByConditionOrArray entry c) as [[|]|].
Qed.


(** ** Operators *)

Lemma SFeqb_sym x y : SFeqb x y = SFeqb y x.
Proof.
  unfold SFeqb. rewrite (SFcompare_swap y x).
  destruct (SFcompare y x) as [[| |]|]; reflexivity.
Qed.

Lemma strict_equals_sym a b : strict_equals a b = strict_equals b a.
Proof.
  destruct a, b; simpl; try reflexivity.
  - now destruct b, b0.
  - apply SFeqb_sym.
  - apply String.eqb_sym.
  - apply Nat.eqb_sym.
  - apply Nat.eqb_sym.
Qed.

Lemma SameValueZero_truthy v x :
  ToBoolean v = true -> SameValueZero v x = strict_equals x v.
Proof.
  intros Hv. rewrite strict_equals_sym.
  destruct v as [| | |n| | |]; try reflexivity.
  destruct n; try discriminate; reflexivity.
Qed.

Lemma SFltb_asym x y : SFltb x y = true -> SFltb y x = false.
Proof.
  unfold SFltb. rewrite (SFcompare_swap x y).
  destruct (SFcompare x y) as [[| |]|]; simpl; congruence.
Qed.

Lemma string_ltb_asym x y : String.ltb x y = true -> String.ltb y x = false.
Proof.
  unfold String.ltb. rewrite (String.compare_antisym y x).
  destruct (String.compare x y); simpl; congruence.
Qed.

(** No two values are below each other. *)
Lemma less_than_asym a b :
  less_than a b = Some true -> less_than b a = Some false.
Proof.
  unfold less_than.
  destruct (ToPrimitive a) as [pa|]; [|discriminate].
  destruct (ToPrimitive b) as [pb|]; [|discriminate].
  intros H. injection H as H. f_equal.
  destruct pa, pb; try (now apply SFltb_asym); now apply string_ltb_asym.
Qed.

Lemma less_than_throws a b : less_than a b = None <-> less_than b a = None.
Proof.
  unfold less_than.
  destruct (ToPrimitive a), (ToPrimitive b); split; congruence.
Qed.

(** X5.  [{$in: [v]}] matches the entries whose field is the same
    value as [v], with NaN the same as NaN and the two zeros the same.  It
    matches like [{$eq: v}] when [v] is truthy, and, unlike [$eq], it is
    also applied when [v] is falsy. *)
Theorem in_of_one_value :
  forall (entry : value) (f : string) (v : value),
    filterByConditionOrArray entry [(f, in_clause [v])]
      = (let? x := Get entry f in Some (SameValueZero v x))
    /\ (ToBoolean v = true ->
        filterByConditionOrArray entry [(f, in_clause [v])]
          = filterByConditionOrArray entry [(f, eq_clause v)]).
Proof.
  intros entry f v.
  assert (Hin : filterByConditionOrArray entry [(f, in_clause [v])]
                = (let? x := Get entry f in Some (SameValueZero v x))).
  { unfold filterByConditionOrArray, filter_fields, apply_condition. simpl.
    destruct (Get entry f) as [x|]; [|reflexivity].
    rewrite orb_false_r. now destruct (SameValueZero v x). }
  split; [exact Hin|]. intros Hv. rewrite Hin.
  unfold filterByConditionOrArray, filter_fields, apply_condition. simpl.
  rewrite Hv. destruct (Get entry f) as [x|]; [|reflexivity].
  rewrite (SameValueZero_truthy v x Hv). now destruct (strict_equals x v).
Qed.

(** X6.  The alternatives of [$in] are those of [$or]: the filter
    [{$or: [{f: {$in: a}}, {f: {$in: b}}]}] returns what
    [{f: {$in: a.concat(b)}}] returns. *)
Theorem in_is_union :
  forall (entry : value) (f : string) (a b : list value),
    filterByMultiFilter entry
      (or_query [[(f, in_clause a)]; [(f, in_clause b)]])
    = filterByConditionOrArray entry [(f, in_clause (a ++ b))].
Proof.
  intros entry f a b.
  unfold filterByMultiFilter, filterByConditionOrArray, filter_fields,
    apply_condition, includes. simpl.
  destruct (Get entry f) as [x|]; [|reflexivity]. simpl.
  rewrite existsb_app.
  destruct (existsb (fun e => SameValueZero e x) a); simpl; [reflexivity|].
  now destruct (existsb (fun e => SameValueZero e x) b).
Qed.

(** X7.  An entry whose field reads as [undefined], as a record that
    lacks the field does, is never matched by a clause [$eq], [$lt] or
    [$gt] with a truthy operand, and is matched by a clause [$in]
    exactly when the array holds [undefined]. *)
Theorem missing_field_fails_comparisons :
  forall (entry : value) (f : string) (v : value) (arr : list value),
    Get entry f = Some VUndefined ->
    ToBoolean v = true ->
    filterByConditionOrArray entry [(f, eq_clause v)] = Some false
    /\ filterByConditionOrArray entry [(f, lt_clause v)] <> Some true
    /\ filterByConditionOrArray entry [(f, gt_clause v)] <> Some true
    /\ (is_string v = true \/ (exists x, v = VNumber x) ->
        filterByConditionOrArray entry [(f, lt_clause v)] = Some false
        /\ filterByConditionOrArray entry [(f, gt_clause v)] = Some false)
    /\ filterByConditionOrArray entry [(f, in_clause arr)]
       = Some (existsb (fun e => strict_equals e VUndefined) arr).
Proof.
  intros entry f v arr Hget Hv.
  unfold filterByConditionOrArray, filter_fields, apply_condition,
    greater_than, less_than, includes. simpl.
  rewrite Hv, Hget. simpl.
  assert (Hnan : forall x, SFltb NaN x = false /\ SFltb x NaN = false).
  { intros x. split; [reflexivity|]. now destruct x. }
  split; [|split; [|split; [|split]]].
  - destruct v; try discriminate; reflexivity.
  - destruct (ToPrimitive v) as [pv|]; [|discriminate].
    destruct pv; simpl; try discriminate;
      rewrite (proj1 (Hnan _)); discriminate.
  - destruct (ToPrimitive v) as [pv|]; [|discriminate].
    destruct pv; simpl; try discriminate;
      rewrite (proj2 (Hnan _)); discriminate.
  - intros [Hs|[x ->]].
    + destruct v; try discriminate. simpl.
      rewrite (proj1 (Hnan _)), (proj2 (Hnan _)). auto.
    + simpl. rewrite (proj2 (Hnan x)). auto.
  - assert (E : forall l, existsb (fun e => SameValueZero e VUndefined) l
                          = existsb (fun e => strict_equals e VUndefined) l).
    { intros l. induction l as [|e l IH]; simpl; [reflexivity|].
      rewrite IH. f_equal. destruct e as [| | |n| | |]; try reflexivity.
      now destruct n. }
    rewrite E. now destruct (existsb _ arr).
Qed.

(** X8.  No entry is both below and above one operand: a condition
    [{$lt: v, $gt: v}] with a truthy [v] never matches. *)
Theorem strict_bounds_exclude :
  forall (entry : value) (f : string) (v : value),
    ToBoolean v = true ->
    filterByConditionOrArray entry
      [(f, {| cond_eq := VUndefined; cond_gt := v; cond_lt := v;
              cond_in := None |})]
    <> Some true.
Proof.
  intros entry f v Hv.
  unfold filterByConditionOrArray, filter_fields, apply_condition. simpl.
  rewrite Hv. destruct (Get entry f) as [x|]; [|discriminate]. simpl.
  destruct (less_than x v) as [[|]|] eqn:E; try discriminate.
  unfold greater_than. rewrite (less_than_asym x v E). discriminate.
Qed.

(** ** The comparator as an order *)

Lemma less_than_irrefl a : less_than a a <> Some true.
Proof.
  intros H. assert (H' := less_than_asym a a H). congruence.
Qed.

Lemma sort_swap a b spec : sort b a spec = option_map Z.opp (sort a b spec).
Proof.
  induction spec as [|[f d] spec IH]; [reflexivity|].
  simpl. destruct (Get a f) as [x|], (Get b f) as [y|]; try reflexivity.
  unfold greater_than.
  destruct (less_than y x) as [[|]|] eqn:Eyx.
  - rewrite (less_than_asym y x Eyx). simpl. reflexivity.
  - destruct (less_than x y) as [[|]|] eqn:Exy.
    + simpl. now rewrite Z.opp_involutive.
    + exact IH.
    + reflexivity.
  - apply less_than_throws in Eyx. now rewrite Eyx.
Qed.

(** X9.  Exchanging the two records negates the result of [sort], and
    throws when [sort] throws; a record compared with itself gives 0. *)
Theorem sort_antisymmetric :
  forall (a b : value) (spec : SortOptions),
    sort b a spec = option_map Z.opp (sort a b spec)
    /\ (sort a a spec = Some 0%Z \/ sort a a spec = None).
Proof.
  intros a b spec. split; [apply sort_swap|].
  induction spec as [|[f d] spec IH]; [now left|].
  simpl. destruct (Get a f) as [x|]; [|now right].
  unfold greater_than.
  destruct (less_than x x) as [[|]|] eqn:E; [|exact IH|now right].
  now apply less_than_irrefl in E.
Qed.

(** [{f: -d, ...}] for [{f: d, ...}]. *)
Definition reverse_directions (spec : SortOptions) : SortOptions :=
  map (fun fd => (fst fd, (- snd fd)%Z)) spec.

(** X10.  Reversing every direction of the sort options negates the
    result of [sort], which is then the result on the exchanged records. *)
Theorem reversed_directions_reverse :
  forall (a b : value) (spec : SortOptions),
    sort a b (reverse_directions spec) = option_map Z.opp (sort a b spec)
    /\ sort a b (reverse_directions spec) = sort b a spec.
Proof.
  intros a b spec.
  assert (H : sort a b (reverse_directions spec) = option_map Z.opp (sort a b spec)).
  { induction spec as [|[f d] spec IH]; [reflexivity|].
    simpl. destruct (Get a f) as [x|]; [|reflexivity].
    destruct (Get b f) as [y|]; [|reflexivity].
    destruct (greater_than x y) as [[|]|]; try reflexivity.
    destruct (less_than x y) as [[|]|]; try reflexivity. exact IH. }
  split; [exact H|]. now rewrite H, (sort_swap a b spec).
Qed.

(** ** The projector on any entry *)

Lemma project_fields_total entry fields a ps next :
  is_nullish entry = false ->
  exists a',
    project_fields entry fields (VObject a ps) next
      = Some (VObject a' (written entry fields ps), next + length fields)
    /\ (a' = a \/ next <= a').
Proof.
  intros Hn. revert a ps next.
  induction fields as [|f fields IH]; intros a ps next.
  - exists a. simpl. unfold ret. rewrite Nat.add_0_r. auto.
  - destruct (Get_total entry f Hn) as [v Hv].
    destruct (IH next (set_property ps f v) (S next)) as [a' [E Ha]].
    exists a'. split.
    + simpl. unfold bind, alloc, lift. rewrite Hv. simpl. rewrite E.
      now rewrite Nat.add_succ_r.
    + right. destruct Ha; lia.
Qed.

Lemma written_ext entry entry' fields ps :
  (forall f, In f fields -> Get entry f = Get entry' f) ->
  written entry fields ps = written entry' fields ps.
Proof.
  revert ps. induction fields as [|f fields IH]; intros ps H; [reflexivity|].
  simpl. rewrite <- (H f) by (simpl; auto).
  apply IH. intros g Hg. apply H. simpl. auto.
Qed.

Lemma project_properties entry P next :
  is_nullish entry = false ->
  exists addr,
    project entry P next
      = Some (VObject addr (written entry (Object_keys P) []),
              S (next + length P)).
Proof.
  intros Hn.
  destruct (project_fields_total entry (Object_keys P) next [] (S next) Hn)
    as [addr [E _]].
  exists addr. unfold project, bind, alloc. rewrite E. unfold Object_keys.
  now rewrite length_map.
Qed.

(** X11.  [project] throws exactly on [null] and [undefined] with
    projection options that hold a field; with options that hold no field
    it returns a new empty object for every entry. *)
Theorem project_throws_on_nullish :
  forall (entry : value) (P : ProjectionOptions) (next : nat),
    (project entry P next = None <-> is_nullish entry = true /\ P <> [])
    /\ project entry [] next = Some (VObject next [], S next).
Proof.
  intros entry P next. split; [|reflexivity].
  destruct (is_nullish entry) eqn:Hn.
  - destruct P as [|[f u] P].
    + split; [discriminate|]. intros [_ H]. now elim H.
    + split; [intros _; split; [reflexivity|discriminate]|]. intros _.
      unfold project, bind, alloc. simpl. unfold bind, alloc, lift.
      now rewrite (Get_nullish entry f Hn).
  - destruct (project_properties entry P next Hn) as [addr E]. rewrite E.
    split; [discriminate|]. intros [H _]. discriminate.
Qed.

(** X12.  Projecting a projection of a record onto fields that the
    first projection kept gives the fields that projecting the record
    onto them gives; in particular a second projection with the same
    options changes no field. *)
Theorem project_composes :
  forall (addr : nat) (props : properties) (P Q : ProjectionOptions)
         (next : nat),
    incl (Object_keys Q) (Object_keys P) ->
    let R := VObject addr props in
    exists R' next',
      project R P next = Some (R', next')
      /\ (forall m,
            option_map (fun r => own_properties (fst r)) (project R' Q m)
            = option_map (fun r => own_properties (fst r)) (project R Q m))
      /\ (forall m,
            option_map (fun r => own_properties (fst r)) (project R' P m)
            = Some (own_properties R')).
Proof.
  intros addr props P Q next Hincl R.
  assert (Hn : is_nullish R = false) by reflexivity.
  destruct (project_properties R P next Hn) as [a1 E1].
  set (R' := VObject a1 (written R (Object_keys P) [])) in *.
  assert (Hget : forall f, In f (Object_keys P) -> Get R' f = Get R f).
  { intros f Hf. unfold R' at 1. simpl.
    rewrite written_property
      by (intros g _; destruct (Get_record addr props g) as [v E]; unfold R;
          congruence).
    apply existsb_eqb_In in Hf. rewrite Hf.
    destruct (Get_record addr props f) as [v E]. fold R in E. now rewrite E. }
  assert (Hn' : is_nullish R' = false) by reflexivity.
  exists R', (S (next + length P)). split; [exact E1|]. split.
  - intros m.
    destruct (project_properties R' Q m Hn') as [a2 ->].
    destruct (project_properties R Q m Hn) as [a3 ->]. simpl. f_equal.
    apply written_ext. intros f Hf. apply Hget. now apply Hincl.
  - intros m.
    destruct (project_properties R' P m Hn') as [a2 ->]. simpl. f_equal.
    apply written_ext. intros f Hf. now apply Hget.
Qed.

(** ** The query executor on a growing log *)

Lemma split_on_nonempty sep s : split_on sep s <> [].
Proof.
  destruct s as [|c s]; simpl; [discriminate|].
  destruct (sep c); [discriminate|]. now destruct (split_on sep s).
Qed.

Lemma split_on_app sep a c b :
  sep c = true ->
  split_on sep (a ++ String c b) = split_on sep a ++ split_on sep b.
Proof.
  intros Hc. induction a as [|x a IH]; simpl.
  - now rewrite Hc.
  - rewrite IH. destruct (sep x); [reflexivity|].
    destruct (split_on sep a) as [|piece pieces] eqn:E; [|reflexivity].
    now apply split_on_nonempty in E.
Qed.

Lemma decode_app rows rows' next :
  decode (rows ++ rows') next
    = match decode rows next with
      | Some (entries, mid) =>
          match decode rows' mid with
          | Some (entries', next') => Some (entries ++ entries', next')
          | None => None
          end
      | None => None
      end.
Proof.
  revert next. induction rows as [|row rows IH]; intros next; simpl.
  - unfold ret. now destruct (decode rows' next) as [[entries' next']|].
  - destruct (isExist row); [|apply IH].
    unfold bind. destruct (parse (substr1 row) next) as [[entry n]|]; [|reflexivity].
    rewrite IH. destruct (decode rows n) as [[entries mid]|]; [|reflexivity].
    unfold ret. now destruct (decode rows' mid) as [[entries' next']|].
Qed.

Lemma Array_filter_app f arr arr' :
  Array_filter f (arr ++ arr')
    = (let? kept := Array_filter f arr in
       let? kept' := Array_filter f arr' in
       Some (kept ++ kept')).
Proof.
  induction arr as [|x arr IH]; simpl.
  - now destruct (Array_filter f arr').
  - destruct (f x) as [keep|]; [|reflexivity]. rewrite IH.
    destruct (Array_filter f arr) as [kept|]; [|reflexivity].
    destruct (Array_filter f arr') as [kept'|]; [|reflexivity].
    now destruct keep.
Qed.

Lemma select_app db query entries entries' :
  select db query (entries ++ entries')
    = (let? kept := select db query entries in
       let? kept' := select db query entries' in
       Some (kept ++ kept')).
Proof.
  unfold select. destruct (isMultiFilter query); [|destruct (isTextFilter query)];
    apply Array_filter_app.
Qed.

(** X13.  Without options, [find] on a content followed by a line feed
    and a second content returns the results on the first content followed
    by the results on the second, and fails when it fails on either: lines
    added to the log leave the earlier results and their order as they
    are.  With any options, a line feed at the end of the content changes
    nothing. *)
Theorem find_on_appended_log :
  forall (db : Database) (query : Filter) (options : option FindOptions)
         (content content' : string) (next : nat),
    find_in db query None (content ++ String line_feed content') next
      = match find_in db query None content next with
        | Some (result, mid) =>
            match find_in db query None content' mid with
            | Some (result', next') => Some (result ++ result', next')
            | None => None
            end
        | None => None
        end
    /\ find_in db query options (content ++ String line_feed EmptyString) next
       = find_in db query options content next.
Proof.
  intros db query options content content' next.
  assert (Hsep : Ascii.eqb line_feed line_feed = true) by reflexivity.
  split.
  - unfold find_in, bind, lift, apply_options, ret.
    rewrite (split_on_app _ content line_feed content' Hsep), decode_app.
    destruct (decode (split_on (Ascii.eqb line_feed) content) next)
      as [[entries mid]|]; [|reflexivity].
    destruct (select db query entries) as [kept|] eqn:S1.
    + destruct (decode (split_on (Ascii.eqb line_feed) content') mid)
        as [[entries' next']|]; [|reflexivity].
      rewrite select_app, S1.
      now destruct (select db query entries') as [kept'|].
    + destruct (decode (split_on (Ascii.eqb line_feed) content') mid)
        as [[entries' next']|]; [|reflexivity].
      now rewrite select_app, S1.
  - unfold find_in, bind.
    rewrite (split_on_app _ content line_feed EmptyString Hsep), decode_app.
    simpl. unfold ret.
    destruct (decode (split_on (Ascii.eqb line_feed) content) next)
      as [[entries mid]|]; [|reflexivity].
    now rewrite app_nil_r.
Qed.

(** ** Options *)

Lemma Array_map_length f arr next out next' :
  Array_map f arr next = Some (out, next') -> length out = length arr.
Proof.
  revert next out next'. induction arr as [|x arr IH]; simpl; intros next out next' H.
  - injection H as <- _. reflexivity.
  - unfold bind in H. destruct (f x next) as [[y n]|]; [|discriminate].
    destruct (Array_map f arr n) as [[rest n']|] eqn:E; [|discriminate].
    injection H as <- _. simpl. f_equal. exact (IH n rest n' E).
Qed.

Lemma find_with_options db query options next :
  find db query options next
    = match find db query None next with
      | Some (entries, mid) => apply_options options entries mid
      | None => None
      end.
Proof.
  unfold find, find_in, bind, lift.
  destruct (readFile (filename db)) as [rawData|]; [|reflexivity].
  destruct (decode _ next) as [[entries mid]|]; [|reflexivity].
  now destruct (select db query entries).
Qed.

(** X14.  The options do not change which records [find] selects:
    when [find] returns with and without them, the two results have the
    same length; without projection the result with options is a
    permutation of the other, and without sort the order is the same.
    When [find] fails without options it fails with them. *)
Theorem options_keep_the_selection :
  forall (db : Database) (query : Filter) (options : option FindOptions)
         (next : nat) (plain : list value) (mid : nat),
    find db query None next = Some (plain, mid) ->
    (forall result next',
        find db query options next = Some (result, next') ->
        length result = length plain
        /\ (projection_of options = None -> Permutation plain result /\ next' = mid)
        /\ (sort_of options = None -> projection_of options = None ->
            result = plain))
    /\ (forall other : Filter,
          find db other None next = None -> find db other options next = None).
Proof.
  intros db query options next plain mid Hplain. split.
  - intros result next' H. rewrite find_with_options, Hplain in H.
    destruct options as [[[sortOptions|] [P|]]|]; simpl in H;
      unfold bind, lift, ret in H.
    + destruct (Array_sort _ plain) as [ordered|] eqn:Q; [|discriminate].
      apply Array_sort_permutation in Q. apply Array_map_length in H.
      split; [|split; discriminate].
      rewrite H. symmetry. now apply Permutation_length.
    + destruct (Array_sort _ plain) as [ordered|] eqn:Q; [|discriminate].
      apply Array_sort_permutation in Q. injection H as <- <-.
      split; [symmetry; now apply Permutation_length|].
      split; [auto|discriminate].
    + apply Array_map_length in H. split; [exact H|split; discriminate].
    + injection H as <- <-. repeat split; auto.
    + injection H as <- <-. repeat split; auto.
  - intros other H. now rewrite find_with_options, H.
Qed.

(** X15.  The two variants of the engine agree: [find] of exercise 13
    returns what [find] of exercise 14 returns without options, and with
    options that hold neither [sort] nor [projection]. *)
Theorem variants_agree :
  forall (db : Database) (query : Filter) (next : nat),
    find_13 db query next = find db query None next
    /\ find db query (Some {| opt_sort := None; opt_projection := None |}) next
       = find db query None next.
Proof.
  intros db query next. split; [apply find_13_is_find|].
  rewrite find_with_options. now destruct (find db query None next) as [[? ?]|].
Qed.

(** ** Full-text search at its edges *)

Lemma text_words_bad_word fields entry words result w :
  In w words ->
  new_RegExp ("\b" ++ w ++ "\b") = None ->
  text_words fields entry words result = None.
Proof.
  intros Hin Hbad. revert result.
  induction words as [|w' words IH]; intros result; [destruct Hin|].
  rewrite text_words_round. destruct Hin as [->|Hin].
  - now rewrite Hbad.
  - destruct (new_RegExp ("\b" ++ w' ++ "\b")) as [regExp|]; [|reflexivity].
    destruct (text_fields regExp entry fields result) as [result'|]; [|reflexivity].
    now apply IH.
Qed.

Lemma text_words_no_field entry words :
  text_words [] entry words false <> Some true.
Proof.
  induction words as [|w words IH]; [discriminate|].
  rewrite text_words_round.
  destruct (new_RegExp _) as [regExp|]; [|discriminate]. exact IH.
Qed.

Lemma quantifier_first c rest :
  In c ["*"; "+"; "?"]%char ->
  new_RegExp ("\b" ++ String c rest ++ "\b") = None.
Proof.
  intros [<-|[<-|[<-|[]]]]; reflexivity.
Qed.

(** X16.  [filterByText] throws on every entry when one word of the
    text is no pattern, as a word that starts with [*], [+] or [?] is,
    whatever the other words match; it throws on [null] and [undefined]
    when the database has a full-text field; and it matches no entry when
    the database has none. *)
Theorem text_filter_edges :
  forall (db : Database) (entry : value) (text : string),
    (forall w, In w (split_on is_white_space text) ->
               new_RegExp ("\b" ++ w ++ "\b") = None ->
               filterByText db entry (text_query text) = None)
    /\ (forall c rest,
          In c ["*"; "+"; "?"]%char ->
          In (String c rest) (split_on is_white_space text) ->
          filterByText db entry (text_query text) = None)
    /\ (is_nullish entry = true -> fullTextSearchFieldNames db <> [] ->
        filterByText db entry (text_query text) = None)
    /\ (fullTextSearchFieldNames db = [] ->
        filterByText db entry (text_query text) <> Some true).
Proof.
  intros db entry text. unfold filterByText, text_query, q_text.
  split; [|split; [|split]].
  - intros w Hin Hbad. now apply text_words_bad_word with w.
  - intros c rest Hc Hin. apply text_words_bad_word with (String c rest);
      [exact Hin|now apply quantifier_first].
  - intros Hn Hfields.
    destruct (split_on is_white_space text) as [|w words] eqn:E;
      [now apply split_on_nonempty in E|].
    rewrite text_words_round.
    destruct (new_RegExp _) as [regExp|]; [|reflexivity].
    destruct (fullTextSearchFieldNames db) as [|f fields]; [now elim Hfields|].
    simpl. now rewrite (Get_nullish entry f Hn).
  - intros ->. apply text_words_no_field.
Qed.

(** ** The comparator on records of one type *)

(** [x] is not above [y], for two binary64 numbers that are not NaN. *)
Definition SFnot_above (x y : spec_float) : Prop :=
  SFcompare x y = Some Lt \/ SFcompare x y = Some Eq.

Lemma SFnot_above_trans x y z :
  SFnot_above x y -> SFnot_above y z -> SFnot_above x z.
Proof.
  unfold SFnot_above.
  destruct x as [sx|sx| |sx mx ex], y as [sy|sy| |sy my ey],
    z as [sz|sz| |sz mz ez]; simpl;
    try (intros [Ha|Ha] [Hb|Hb]; discriminate);
    try destruct sx; try destruct sy; try destruct sz; simpl;
    try (intros [Ha|Ha] [Hb|Hb]; (discriminate || (now left) || (now right)));
    fold (Pos.compare mx my) (Pos.compare my mz) (Pos.compare mx mz);
    destruct (Z.compare_spec ex ey), (Z.compare_spec ey ez),
      (Z.compare_spec ex ez); try lia;
    destruct (Pos.compare_spec mx my), (Pos.compare_spec my mz),
      (Pos.compare_spec mx mz); simpl; try lia;
    intros [Ha|Ha] [Hb|Hb]; try discriminate; auto.
Qed.

Lemma SFnot_above_ltb x y :
  is_NaN x = false -> is_NaN y = false ->
  (SFltb y x = false <-> SFnot_above x y).
Proof.
  intros Hx Hy. unfold SFltb, SFnot_above. rewrite (SFcompare_swap x y).
  assert (Hsome : SFcompare x y <> None)
    by (destruct x as [sx|sx| |sx mx ex], y as [sy|sy| |sy my ey];
        simpl in *; discriminate).
  destruct (SFcompare x y) as [[| |]|]; simpl; intuition congruence.
Qed.

Lemma string_lt_trans x y z :
  String.compare x y = Lt -> String.compare y z = Lt -> String.compare x z = Lt.
Proof.
  revert y z. induction x as [|a x IH]; intros [|b y] [|c z]; simpl;
    try discriminate; try reflexivity.
  unfold Ascii.compare.
  destruct (N.compare_spec (N_of_ascii a) (N_of_ascii b)) as [E|E|E],
    (N.compare_spec (N_of_ascii b) (N_of_ascii c)) as [E'|E'|E'],
    (N.compare_spec (N_of_ascii a) (N_of_ascii c)) as [E''|E''|E''];
    try discriminate; try lia; try reflexivity.
  apply IH.
Qed.

Lemma string_not_above_trans x y z :
  String.ltb y x = false -> String.ltb z y = false -> String.ltb z x = false.
Proof.
  unfold String.ltb.
  rewrite (String.compare_antisym y x), (String.compare_antisym z y),
    (String.compare_antisym z x).
  destruct (String.compare x y) eqn:Exy; simpl; try discriminate;
    destruct (String.compare y z) eqn:Eyz; simpl; try discriminate; intros _ _.
  - apply String.compare_eq_iff in Exy. subst. now rewrite Eyz.
  - apply String.compare_eq_iff in Exy. subst. now rewrite Eyz.
  - apply String.compare_eq_iff in Eyz. subst. now rewrite Exy.
  - now rewrite (string_lt_trans x y z Exy Eyz).
Qed.

Lemma comparable_sym x y : comparable x y = comparable y x.
Proof. destruct x, y; simpl; try reflexivity. apply andb_comm. Qed.

Lemma comparable_trans x y z :
  comparable x y = true -> comparable y z = true -> comparable x z = true.
Proof.
  destruct x, y, z; simpl; try discriminate; try reflexivity.
  intros H H'. apply andb_true_iff in H. apply andb_true_iff in H'.
  apply andb_true_iff. tauto.
Qed.

(** On comparable values, not to be above is transitive. *)
Lemma not_above_trans x y z :
  comparable x y = true -> comparable y z = true ->
  less_than y x = Some false -> less_than z y = Some false ->
  less_than z x = Some false.
Proof.
  destruct x as [| |bx|x|x|rx ex|rx px], y as [| |by'|y|y|ry ey|ry py],
    z as [| |bz|z|z|rz ez|rz pz]; try discriminate; intros Hxy Hyz.
  - simpl in Hxy, Hyz. apply andb_true_iff in Hxy. apply andb_true_iff in Hyz.
    destruct Hxy as [Hx Hy]. destruct Hyz as [_ Hz].
    apply negb_true_iff in Hx. apply negb_true_iff in Hy.
    apply negb_true_iff in Hz.
    unfold less_than. simpl. intros H H'. injection H as H. injection H' as H'.
    f_equal. apply SFnot_above_ltb; auto.
    apply SFnot_above_trans with y; apply SFnot_above_ltb; auto.
  - unfold less_than. simpl. intros H H'. injection H as H. injection H' as H'.
    f_equal. now apply string_not_above_trans with y.
Qed.

Lemma comparable_below x y :
  comparable x y = true -> exists below, less_than x y = Some below.
Proof.
  intros H. destruct (comparable_ordered x y H) as [_ [below [_ [E _]]]]. eauto.
Qed.

(** The two records hold comparable values in every field of the sort
    options. *)
Definition comparable_on (spec : SortOptions) (a b : value) : Prop :=
  forall f, In f (Object_keys spec) ->
            exists x y, Get a f = Some x /\ Get b f = Some y
                        /\ comparable x y = true.

(** X17.  On records that hold, in every field of the sort options,
    two strings or two numbers other than NaN, and with directions other
    than 0, [sort] is transitive: when [a] does not come after [b] and [b]
    does not come after [c], then [a] does not come after [c], and [a]
    comes before [c] when it comes before [b] or [b] comes before [c]. *)
Theorem sort_transitive :
  forall (a b c : value) (spec : SortOptions) (r1 r2 : Z),
    Forall (fun fd => snd fd <> 0%Z) spec ->
    comparable_on spec a b -> comparable_on spec b c ->
    sort a b spec = Some r1 -> sort b c spec = Some r2 ->
    (r1 <= 0)%Z -> (r2 <= 0)%Z ->
    exists r3, sort a c spec = Some r3 /\ (r3 <= 0)%Z
               /\ ((r1 < 0 \/ r2 < 0)%Z -> (r3 < 0)%Z).
Proof.
  intros a b c spec r1 r2 Hd. revert r1 r2.
  induction Hd as [|[f d] spec Hnz _ IH]; intros r1 r2 Hab Hbc H1 H2 L1 L2.
  - simpl in *. injection H1 as <-. injection H2 as <-.
    exists 0%Z. repeat split; [lia|lia].
  - simpl in Hnz.
    destruct (Hab f) as [x [y [Ga [Gb Cxy]]]]; [simpl; auto|].
    destruct (Hbc f) as [y' [z [Gb' [Gc Cyz]]]]; [simpl; auto|].
    rewrite Gb in Gb'. injection Gb' as <-.
    assert (Cxz := comparable_trans x y z Cxy Cyz).
    assert (Cyx : comparable y x = true) by now rewrite comparable_sym.
    assert (Czy : comparable z y = true) by now rewrite comparable_sym.
    assert (Czx : comparable z x = true) by now rewrite comparable_sym.
    assert (IH' : forall s1 s2,
               sort a b spec = Some s1 -> sort b c spec = Some s2 ->
               (s1 <= 0)%Z -> (s2 <= 0)%Z ->
               exists r3, sort a c spec = Some r3 /\ (r3 <= 0)%Z
                          /\ ((s1 < 0 \/ s2 < 0)%Z -> (r3 < 0)%Z)).
    { intros s1 s2. apply IH; intros g Hg; [apply Hab|apply Hbc]; simpl; auto. }
    simpl in H1, H2 |- *. rewrite Ga, Gb in H1. rewrite Gb, Gc in H2.
    rewrite Ga, Gc. unfold greater_than in *.
    destruct (comparable_below x y Cxy) as [pxy Exy].
    destruct (comparable_below y x Cyx) as [pyx Eyx].
    destruct (comparable_below y z Cyz) as [pyz Eyz].
    destruct (comparable_below z y Czy) as [pzy Ezy].
    destruct (comparable_below x z Cxz) as [pxz Exz].
    destruct (comparable_below z x Czx) as [pzx Ezx].
    rewrite Exy, Eyx in H1. rewrite Eyz, Ezy in H2. rewrite Exz, Ezx.
    destruct (Z.lt_total d 0) as [Hneg|[Hzero|Hpos]]; [|contradiction|].
    + (* descending: the result is not above 0 when a is not below b *)
      assert (Pxy : pxy = false).
      { destruct pxy; [|reflexivity]. rewrite (less_than_asym x y Exy) in Eyx.
        injection Eyx as <-. injection H1 as <-. lia. }
      assert (Pyz : pyz = false).
      { destruct pyz; [|reflexivity]. rewrite (less_than_asym y z Eyz) in Ezy.
        injection Ezy as <-. injection H2 as <-. lia. }
      subst pxy pyz.
      assert (Pxz : less_than x z = Some false)
        by (apply (not_above_trans z y x); auto).
      rewrite Exz in Pxz. injection Pxz as ->.
      destruct pzx.
      * exists d. repeat split; lia.
      * assert (Pyx : less_than y x = Some false)
          by (apply (not_above_trans x z y); auto).
        assert (Pzy : less_than z y = Some false)
          by (apply (not_above_trans y x z); auto).
        rewrite Eyx in Pyx. injection Pyx as ->.
        rewrite Ezy in Pzy. injection Pzy as ->.
        now apply IH'.
    + (* ascending: the result is not above 0 when a is not above b *)
      assert (Pyx : pyx = false).
      { destruct pyx; [|reflexivity]. injection H1 as <-. lia. }
      assert (Pzy : pzy = false).
      { destruct pzy; [|reflexivity]. injection H2 as <-. lia. }
      subst pyx pzy.
      assert (Pzx : less_than z x = Some false)
        by (apply (not_above_trans x y z); auto).
      rewrite Ezx in Pzx. injection Pzx as ->.
      destruct pxz.
      * exists (- d)%Z. repeat split; lia.
      * assert (Pxy : less_than x y = Some false)
          by (apply (not_above_trans y z x); auto).
        assert (Pyz : less_than y z = Some false)
          by (apply (not_above_trans z x y); auto).
        rewrite Exy in Pxy. injection Pxy as ->.
        rewrite Eyz in Pyz. injection Pyz as ->.
        now apply IH'.
Qed.

(** ** Entries that are no records, and logs without record *)

(** No operator of the condition is applied: its [$eq], [$lt] and [$gt]
    are falsy and it has no [$in]. *)
Definition applies_nothing (c : condition) : bool :=
  negb (ToBoolean (cond_eq c)) && negb (ToBoolean (cond_lt c))
  && negb (ToBoolean (cond_gt c))
  && match cond_in c with Some _ => false | None => true end.

Lemma apply_condition_nullish entry field c :
  is_nullish entry = true ->
  apply_condition entry field c true
    = if applies_nothing c then Some true else None.
Proof.
  intros Hn. unfold apply_condition, applies_nothing.
  rewrite (Get_nullish entry field Hn).
  destruct (ToBoolean (cond_eq c)), (ToBoolean (cond_lt c)),
    (ToBoolean (cond_gt c)), (cond_in c); reflexivity.
Qed.

(** X18.  On [null] and [undefined] a conditional filter never
    returns false: it returns true when none of its conditions applies an
    operator, as the filter [{}] does, and throws otherwise. *)
Theorem conditional_filter_on_nullish :
  forall (entry : value) (filter : ConditionalFilter),
    is_nullish entry = true ->
    filterByConditionOrArray entry filter
      = if forallb (fun fc => applies_nothing (snd fc)) filter
        then Some true else None.
Proof.
  intros entry filter Hn. unfold filterByConditionOrArray.
  induction filter as [|[f c] filter IH]; [reflexivity|].
  simpl. rewrite (apply_condition_nullish entry f c Hn).
  destruct (applies_nothing c); [exact IH|reflexivity].
Qed.

Lemma decode_nothing rows next :
  filter isExist rows = [] -> decode rows next = Some ([], next).
Proof.
  intros H. rewrite decode_visible, H. reflexivity.
Qed.

Lemma select_nothing db query : select db query [] = Some [].
Proof.
  unfold select. destruct (isMultiFilter query); [|destruct (isTextFilter query)];
    reflexivity.
Qed.

(** X19.  On a log without a line that starts with the existence
    character, as the empty log is, [find] returns no record and does not
    fail, whatever the query and the options are: no pattern is built and
    no field is read. *)
Theorem find_on_log_without_records :
  forall (db : Database) (query : Filter) (options : option FindOptions)
         (rawData : string) (next : nat),
    readFile (filename db) = Some rawData ->
    filter isExist (split_on (Ascii.eqb line_feed) rawData) = [] ->
    find db query options next = Some ([], next).
Proof.
  intros db query options rawData next Hread Hrows.
  unfold find, find_in, bind, lift. rewrite Hread.
  rewrite (decode_nothing _ next Hrows), select_nothing.
  destruct options as [[[sortOptions|] projection]|]; simpl;
    unfold bind, lift, ret.
  - destruct (Array_sort (fun a b => sort a b sortOptions) []) as [sorted|] eqn:Q.
    + apply Array_sort_permutation in Q. apply Permutation_nil in Q. subst.
      now destruct projection.
    + exfalso. revert Q. apply Array_sort_returns. intros a b [].
  - now destruct projection.
  - reflexivity.
Qed.

End Further.

(** * Scenarios on the sample host *)

#[local] Existing Instance Sample.host.

(** The scenario of the specification: of Ann (30), Bob (25, on a line
    with another marker) and Cid (25), the query for an age below 30,
    sorted by name, returns Cid alone. *)
Example scenario_end_to_end :
  find Sample.db Sample.younger_than_30 Sample.by_name 0
    = Some ([Sample.record_cid], 2).
Proof. vm_compute. reflexivity. Qed.

Example scenario_exercise_13 :
  find_13 Sample.db (conditional_query []) 0
    = Some ([Sample.record_ann; Sample.record_cid], 2).
Proof. vm_compute. reflexivity. Qed.

(** C3 on the scenario of the specification. *)
Lemma only_existing_rows_witness :
  readFile (filename Sample.db) = Some Sample.users_log
  /\ find Sample.db Sample.younger_than_30 Sample.by_name 0
       = Some ([Sample.record_cid], 2)
  /\ exists decoded kept ordered mid,
       decode (split_on (Ascii.eqb line_feed) Sample.users_log) 0
         = Some (decoded, mid)
       /\ decode (filter isExist (split_on (Ascii.eqb line_feed) Sample.users_log)) 0
          = Some (decoded, mid)
       /\ Forall2 decoded_from
            (filter isExist (split_on (Ascii.eqb line_feed) Sample.users_log))
            decoded
       /\ subsequence kept decoded
       /\ Permutation kept ordered
       /\ (sort_of Sample.by_name = None -> ordered = kept)
       /\ match projection_of Sample.by_name with
          | None => [Sample.record_cid] = ordered /\ 2 = mid
          | Some P =>
              Array_map (fun entry => project entry P) ordered mid
                = Some ([Sample.record_cid], 2)
          end.
Proof.
  split; [reflexivity|]. split; [vm_compute; reflexivity|].
  apply (only_existing_rows Sample.db Sample.younger_than_30 Sample.by_name
           Sample.users_log 0 [Sample.record_cid] 2).
  - reflexivity.
  - vm_compute. reflexivity.
Defined.

(** The query [{$text: "*"}]: the pattern [\b*\b] is a SyntaxError. *)
Example star_is_no_pattern : new_RegExp "\b*\b" = None.
Proof. reflexivity. Qed.

(** Against C4 as stated: every line of the log that starts with the
    existence character can be parsed, and [find] fails all the same on a
    query whose text is no pattern. *)
Lemma decoding_is_not_enough :
  ~ (find Sample.db (text_query "*") None 0 <> None
     <-> all_visible_decode (split_on (Ascii.eqb line_feed) Sample.users_log)).
Proof.
  intros [_ H]. apply H; [|vm_compute; reflexivity].
  intros row Hrow Hvisible.
  vm_compute in Hrow.
  destruct Hrow as [<-|[<-|[<-|[]]]]; vm_compute; discriminate.
Qed.

(** C4 on the log of the scenario. *)
Lemma decode_failure_is_fatal_witness :
  readFile (filename Sample.db) = Some Sample.users_log
  /\ (find Sample.db (text_query "*") None 0 <> None ->
      all_visible_decode (split_on (Ascii.eqb line_feed) Sample.users_log))
  /\ (find Sample.db (conditional_query []) None 0 <> None
      <-> all_visible_decode (split_on (Ascii.eqb line_feed) Sample.users_log)).
Proof.
  assert (Hread : readFile (filename Sample.db) = Some Sample.users_log)
    by reflexivity.
  split; [exact Hread|].
  destruct (decode_failure_is_fatal Sample.db (text_query "*") None
              Sample.users_log 0 Hread) as [_ [H2 [_ H4]]].
  split; [exact H2|exact H4].
Defined.

(** A line can hold the document [null].  Reading a field of it is a
    TypeError, so a query that applies an operator is rejected, and the
    query [{}], which reads nothing, returns the record. *)
Example null_record :
  find Sample.null_db Sample.younger_than_30 None 0 = None
  /\ find Sample.null_db (conditional_query []) None 0 = Some ([VNull], 0).
Proof. split; reflexivity. Qed.

(** A query text that is empty, or that starts or ends with a white space
    character or holds two in a row, has an empty word, whose pattern
    [\b\b] is found in every string that holds a word character. *)
Example empty_word_matches_words :
  find Sample.db (text_query "") None 0
    = Some ([Sample.record_ann; Sample.record_cid], 2).
Proof. vm_compute. reflexivity. Qed.

(** Against C5 as stated: the word [c.t] does not occur in the string
    [cat], and the record matches, since the dot of the word is read as a
    pattern character. *)
Lemma word_is_read_as_pattern :
  filterByText Sample.db Sample.record_cat (text_query "c.t") = Some true
  /\ ~ (exists w f s,
          In w (split_on is_white_space "c.t")
          /\ In f (fullTextSearchFieldNames Sample.db)
          /\ Get Sample.record_cat f = Some (VString s)
          /\ whole_word_in w s).
Proof.
  split; [reflexivity|].
  intros [w [f [s [Hw [Hf [G H]]]]]].
  destruct Hw as [<-|[]]. destruct Hf as [<-|[]].
  injection G as <-. apply whole_word_search in H. discriminate.
Qed.

(** C5 on the text [dog cat] and a record that holds a word of it. *)
Lemma text_matches_whole_words_witness :
  Forall (fun w => plain_word w = true) (split_on is_white_space "dog cat")
  /\ (filterByText Sample.db Sample.record_sentence (text_query "dog cat")
        = Some true
      <-> exists w f s,
            In w (split_on is_white_space "dog cat")
            /\ In f (fullTextSearchFieldNames Sample.db)
            /\ Get Sample.record_sentence f = Some (VString s)
            /\ whole_word_in w s)
  /\ filterByText Sample.db Sample.record_sentence (text_query "dog cat")
       = Some true.
Proof.
  assert (Hplain : Forall (fun w => plain_word w = true)
                     (split_on is_white_space "dog cat"))
    by (repeat constructor).
  split; [exact Hplain|].
  split; [|reflexivity].
  exact (proj1 (text_matches_whole_words Sample.db Sample.record_sentence
                  "dog cat" Hplain)).
Defined.

(** Against C7 as stated: Ann has no age and Bob is 25.  The two records
    differ on the first field, [age], and [a.age > b.age] does not hold,
    so the comparator of the specification answers the negation of the
    direction of [age]; [sort] finds neither [>] nor [<] on [age], goes on
    to [name], and answers the negation of the direction of [name]. *)
Lemma missing_value_is_passed_over :
  sort Sample.record_ann_without_age Sample.record_bob Sample.by_age_then_name
    = Some 1%Z
  /\ compare_spec Sample.record_ann_without_age Sample.record_bob
       Sample.by_age_then_name
     = Some (-1)%Z.
Proof. split; reflexivity. Qed.

(** The example of C7 under [{age: 1, name: -1}]: with equal ages the
    names decide, in descending order; with different ages the names are
    not looked at. *)
Example sort_by_age_then_name :
  sort Sample.record_bob Sample.record_cid Sample.by_age_then_name = Some 1%Z
  /\ sort Sample.record_cid Sample.record_bob Sample.by_age_then_name
     = Some (-1)%Z
  /\ sort Sample.record_ann Sample.record_bob Sample.by_age_then_name = Some 1%Z
  /\ sort Sample.record_bob Sample.record_ann Sample.by_age_then_name
     = Some (-1)%Z
  /\ sort Sample.record_bob Sample.record_bob Sample.by_age_then_name = Some 0%Z.
Proof. repeat split; reflexivity. Qed.

(** C9 on Ann and the filter [{age: {$gt: 20}, name: {$in: []}}]. *)
Lemma empty_in_matches_nothing_witness :
  In ("name", in_clause []) Sample.older_than_20_named_nothing
  /\ cond_in (in_clause []) = Some []
  /\ filterByConditionOrArray Sample.record_ann Sample.older_than_20_named_nothing
     <> Some true
  /\ filterByConditionOrArray Sample.record_ann Sample.older_than_20_named_nothing
     = Some false.
Proof.
  split; [right; left; reflexivity|]. split; [reflexivity|].
  split; [|reflexivity].
  apply (empty_in_matches_nothing Sample.record_ann
           Sample.older_than_20_named_nothing "name" (in_clause []));
    [right; left; reflexivity|reflexivity].
Defined.

(** * Scenarios of the further properties *)

(** X7 on Ann without age and the operand 25. *)
Lemma missing_field_fails_comparisons_witness :
  Get Sample.record_ann_without_age "age" = Some VUndefined
  /\ ToBoolean (number 25) = true
  /\ filterByConditionOrArray Sample.record_ann_without_age
       [("age", eq_clause (number 25))] = Some false
  /\ filterByConditionOrArray Sample.record_ann_without_age
       [("age", lt_clause (number 25))] <> Some true
  /\ filterByConditionOrArray Sample.record_ann_without_age
       [("age", gt_clause (number 25))] <> Some true
  /\ filterByConditionOrArray Sample.record_ann_without_age
       [("age", in_clause [VUndefined; number 25])] = Some true.
Proof.
  assert (Hget : Get Sample.record_ann_without_age "age" = Some VUndefined)
    by reflexivity.
  assert (Hv : ToBoolean (number 25) = true) by reflexivity.
  destruct (missing_field_fails_comparisons Sample.record_ann_without_age
              "age" (number 25) [VUndefined; number 25] Hget Hv)
    as [H1 [H2 [H3 [_ H5]]]].
  repeat split; assumption.
Defined.

(** X8 on Ann and the bounds [{$lt: 30, $gt: 30}]. *)
Lemma strict_bounds_exclude_witness :
  ToBoolean (number 30) = true
  /\ filterByConditionOrArray Sample.record_ann
       [("age", {| cond_eq := VUndefined; cond_gt := number 30;
                   cond_lt := number 30; cond_in := None |})]
     <> Some true.
Proof.
  split; [reflexivity|].
  apply (strict_bounds_exclude Sample.record_ann "age" (number 30)).
  reflexivity.
Defined.

(** [{name: 1, age: 1}] and [{name: 1}]. *)
Definition name_and_age : ProjectionOptions := [("name", tt); ("age", tt)].

Definition name_only : ProjectionOptions := [("name", tt)].

(** X12 on Ann, projected on name and age and then on name. *)
Lemma project_composes_witness :
  incl (Object_keys name_only) (Object_keys name_and_age)
  /\ exists R' next',
       project Sample.record_ann name_and_age 6 = Some (R', next')
       /\ (forall m,
             option_map (fun r => own_properties (fst r)) (project R' name_only m)
             = option_map (fun r => own_properties (fst r))
                 (project Sample.record_ann name_only m))
       /\ (forall m,
             option_map (fun r => own_properties (fst r))
               (project R' name_and_age m)
             = Some (own_properties R')).
Proof.
  assert (Hincl : incl (Object_keys name_only) (Object_keys name_and_age))
    by (intros f [<-|[]]; simpl; auto).
  split; [exact Hincl|].
  exact (project_composes 0
           [("name", VString "Ann"); ("age", number 30)]
           name_and_age name_only 6 Hincl).
Defined.

(** X14 on the scenario of the specification. *)
Lemma options_keep_the_selection_witness :
  find Sample.db Sample.younger_than_30 None 0 = Some ([Sample.record_cid], 2)
  /\ (forall result next',
        find Sample.db Sample.younger_than_30 Sample.by_name 0
          = Some (result, next') ->
        length result = length [Sample.record_cid]
        /\ (projection_of Sample.by_name = None ->
            Permutation [Sample.record_cid] result /\ next' = 2)
        /\ (sort_of Sample.by_name = None -> projection_of Sample.by_name = None ->
            result = [Sample.record_cid])).
Proof.
  assert (Hplain : find Sample.db Sample.younger_than_30 None 0
                   = Some ([Sample.record_cid], 2))
    by (vm_compute; reflexivity).
  split; [exact Hplain|].
  exact (proj1 (options_keep_the_selection Sample.db Sample.younger_than_30
                  Sample.by_name 0 [Sample.record_cid] 2 Hplain)).
Defined.

(** X17 on Cid, Bob and Ann under [{age: 1, name: -1}]: Cid comes
    before Bob by the name, Bob before Ann by the age. *)
Lemma sort_transitive_witness :
  Forall (fun fd => snd fd <> 0%Z) Sample.by_age_then_name
  /\ comparable_on Sample.by_age_then_name Sample.record_cid Sample.record_bob
  /\ comparable_on Sample.by_age_then_name Sample.record_bob Sample.record_ann
  /\ sort Sample.record_cid Sample.record_bob Sample.by_age_then_name
     = Some (-1)%Z
  /\ sort Sample.record_bob Sample.record_ann Sample.by_age_then_name
     = Some (-1)%Z
  /\ (-1 <= 0)%Z
  /\ exists r3,
       sort Sample.record_cid Sample.record_ann Sample.by_age_then_name = Some r3
       /\ (r3 <= 0)%Z /\ ((-1 < 0 \/ -1 < 0)%Z -> (r3 < 0)%Z).
Proof.
  assert (Hd : Forall (fun fd => snd fd <> 0%Z) Sample.by_age_then_name)
    by (repeat constructor; discriminate).
  assert (H1 : comparable_on Sample.by_age_then_name
                 Sample.record_cid Sample.record_bob).
  { intros f [<-|[<-|[]]]; eexists; eexists; repeat split; reflexivity. }
  assert (H2 : comparable_on Sample.by_age_then_name
                 Sample.record_bob Sample.record_ann).
  { intros f [<-|[<-|[]]]; eexists; eexists; repeat split; reflexivity. }
  assert (L : (-1 <= 0)%Z) by lia.
  split; [exact Hd|]. split; [exact H1|]. split; [exact H2|].
  assert (S1 : sort Sample.record_cid Sample.record_bob Sample.by_age_then_name
               = Some (-1)%Z) by reflexivity.
  assert (S2 : sort Sample.record_bob Sample.record_ann Sample.by_age_then_name
               = Some (-1)%Z) by reflexivity.
  split; [exact S1|]. split; [exact S2|]. split; [exact L|].
  exact (sort_transitive Sample.record_cid Sample.record_bob Sample.record_ann
           Sample.by_age_then_name (-1) (-1) Hd H1 H2 S1 S2 L L).
Defined.

(** X18 on [null] and the filter [{age: {$lt: 30}}]. *)
Lemma conditional_filter_on_nullish_witness :
  is_nullish VNull = true
  /\ filterByConditionOrArray VNull [("age", lt_clause (number 30))] = None
  /\ filterByConditionOrArray VNull [("age", eq_clause (number 0))] = Some true.
Proof.
  assert (Hn : is_nullish VNull = true) by reflexivity.
  split; [exact Hn|]. split.
  - exact (conditional_filter_on_nullish VNull
             [("age", lt_clause (number 30))] Hn).
  - exact (conditional_filter_on_nullish VNull
             [("age", eq_clause (number 0))] Hn).
Defined.

(** A host whose file system holds, beside the logs of the sample host,
    a log of three lines, none of which starts with the existence
    character. *)
Definition deleted_log : string :=
  ("X" ++ Sample.document_text Sample.bob ++ Sample.new_line ++ Sample.new_line
   ++ "not a record")%string.

Definition archive_host : Host :=
  {| readFile := fun name => if name =? "deleted.db" then Some deleted_log
                             else Sample.read name;
     JSON_parse := Sample.parse_document;
     StringToNumber := fun _ => NaN;
     Array_toString := fun _ => Some EmptyString;
     host_property := fun _ _ => VUndefined;
     RegExp_host := fun _ => None;
     Array_sort := Sample.insertion_sort;
     Array_sort_permutation := Sample.insertion_sort_permutation;
     Array_sort_returns := Sample.insertion_sort_returns |}.

Definition deleted_db : Database :=
  {| filename := "deleted.db"; fullTextSearchFieldNames := ["name"] |}.

(** X19 on that log, with a query text that is no pattern. *)
Lemma find_on_log_without_records_witness :
  readFile (Host := archive_host) (filename deleted_db) = Some deleted_log
  /\ filter isExist (split_on (Ascii.eqb line_feed) deleted_log) = []
  /\ find (host := archive_host) deleted_db (text_query "*") Sample.by_name 7
     = Some ([], 7).
Proof.
  assert (Hread : readFile (Host := archive_host) (filename deleted_db)
                  = Some deleted_log) by reflexivity.
  assert (Hrows : filter isExist (split_on (Ascii.eqb line_feed) deleted_log) = [])
    by reflexivity.
  split; [exact Hread|]. split; [exact Hrows|].
  exact (find_on_log_without_records (host := archive_host) deleted_db
           (text_query "*") Sample.by_name deleted_log 7 Hread Hrows).
Defined.
